(** * TileGrid_Gen: grid geometry, input resolution and failure paths

    A shallow embedding of the two exported functions of the package,
    [TileGrid] and [resize], together with the properties of the grid
    geometry they compute.

    Modelling conventions.
    - JavaScript numbers that the module handles ([images.length], [output],
      [padding], [size], indices, pixel offsets) are integers; they are
      modelled in [Z].  [Math.sqrt], [*], [-], [/] and [Math.floor] are
      evaluated on doubles by the runtime; the exact integer functions used
      here agree with them on array lengths (below 2^32) and as long as the
      integers involved stay within 2^53 in magnitude ([exact_geometry]).
      Statements about which options pass the check of line 19 carry that
      range as a hypothesis.
    - The two imported modules, [fs.promises] and [sharp], are interfaces
      ([FsPromises], [Sharp]); every function is parametrised by an
      implementation of them.
    - A promise is modelled by the list of collaborator calls it issues
      together with its outcome (rejection reason or value).  The calls of
      one per-image step are listed in the order the step makes them; the
      steps of different inputs run interleaved in the runtime, and the
      order in which [Promise_all] lists them, like the member whose
      rejection it reports, is one of the possible ones.  The reads of
      the path inputs are issued in array order in every schedule; apart
      from that, no statement below depends on the relative order of calls
      of different inputs or on which of several rejections is reported. *)

From Stdlib Require Import ZArith Lia Permutation.
From stdpp Require Import base tactics option list strings.

Local Open Scope string_scope.
Local Open Scope list_scope.
Local Open Scope Z_scope.

(** ** Values and records of [./type] *)

(** Node's [Buffer]: a sequence of bytes. *)
Abbreviation Buffer := (list Byte.byte).

(** The run-time values that can sit in the [data] field of an [Input].
    The declared type admits a string or a [Buffer]; the remaining
    constructors are the values a JavaScript caller can still pass and that
    [TileGrid] tests for at line 29. *)
Inductive JsData : Type :=
| JsString (s : string)
| JsBuffer (b : Buffer)
| JsUint8Array (b : Buffer)
| JsNumber (n : Z)
| JsNull
| JsUndefined.

(** [typeof v === 'string'] *)
Definition typeof_string (v : JsData) : bool :=
  match v with JsString _ => true | _ => false end.

(** [Buffer.isBuffer(v)] *)
Definition Buffer_isBuffer (v : JsData) : bool :=
  match v with JsBuffer _ => true | _ => false end.

Record Input : Type := mkInput {
  data : JsData;
  id : option string
}.

(** Modelled from the spec: the declaration of [Options] in [./type] is not
    part of the sources.  [output] is mandatory, [background] and [padding]
    are optional (line 14 supplies their defaults).  The spec gives [output]
    as a positive integer and [padding] as a non-negative integer; the
    record does not enforce either, and the properties that need one of
    them say so. *)
Record Options : Type := mkOptions {
  output : Z;
  background : option string;
  padding : option Z
}.

Record Output : Type := mkOutput {
  buffer : Buffer;
  gridSize : Z;
  count : Z
}.

(** ** Collaborators *)

(** Failure codes of [fs.readFile]. *)
Inductive Errno : Type := ENOENT | EACCES | EISDIR.

Class FsPromises : Type := {
  readFile : string -> Errno + Buffer
}.

Inductive Fit : Type := cover | contain | fill | inside | outside.
Inductive Position : Type := center | north | east | south | west.

Record ResizeOptions : Type := mkResizeOptions {
  fit : Fit;
  position : Position
}.

(** The [create] object of line 47. *)
Record Create : Type := mkCreate {
  width : Z;
  height : Z;
  channels : Z;
  create_background : string
}.

(** One entry of the array handed to [composite] (lines 62-66). *)
Record Overlay : Type := mkOverlay {
  input : Buffer;
  left : Z;
  top : Z
}.

(** The three uses of [sharp]:
    - [sharp(v).resize(w, h, o).png().toBuffer()],
    - [sharp({create}).composite(l).png().toBuffer()],
    - [sharp(b).metadata()], restricted to width and height (used by the
      test-suite to observe the size of a result). *)
Class Sharp : Type := {
  sharp_resize_png : JsData -> Z -> Z -> ResizeOptions -> string + Buffer;
  sharp_create_composite_png : Create -> list Overlay -> string + Buffer;
  sharp_metadata : Buffer -> option (Z * Z)
}.

(** ** Promises: calls issued and outcome *)

(** What a rejected promise carries: an [Error] constructed by this module,
    or a failure of a collaborator passed on unchanged. *)
Inductive Rejection : Type :=
| Error (message : string)
| FsError (e : Errno)
| SharpError (message : string).

Inductive Event : Type :=
| EvReadFile (path : string)
| EvSharpResize (src : JsData) (w h : Z) (o : ResizeOptions)
| EvSharpComposite (c : Create) (overlays : list Overlay).

Definition Promise (A : Type) : Type := list Event * (Rejection + A).

Definition resolve {A} (a : A) : Promise A := ([], inr a).
Definition throw {A} (e : Rejection) : Promise A := ([], inl e).

Definition await {A B} (p : Promise A) (k : A -> Promise B) : Promise B :=
  match p with
  | (t, inl e) => (t, inl e)
  | (t, inr a) => let (t', r) := k a in (t ++ t', r)
  end.

Notation "x <- p ;; k" := (await p (fun x => k))
  (at level 100, p at next level, right associativity).

Definition calls {A} (p : Promise A) : list Event := fst p.
Definition outcome {A} (p : Promise A) : Rejection + A := snd p.

(** The call is a [composite] pipeline. *)
Definition is_composite (e : Event) : Prop :=
  match e with EvSharpComposite _ _ => True | _ => False end.

(** [Promise.all]: every promise of the array has been started, so the calls
    of all of them are issued; the result is the array of values in input
    order, or a rejection of one of the members.  The runtime interleaves
    the members (every callback of [images.map] runs to its first [await]
    before any continues) and reports the rejection that happens first in
    time; this function lists the calls member by member and reports the
    first rejected member in array order, which is one admissible
    schedule. *)
Fixpoint Promise_all {A} (ps : list (Promise A)) : Promise (list A) :=
  match ps with
  | [] => resolve []
  | p :: ps' =>
      let (t, r) := Promise_all ps' in
      (calls p ++ t,
       match outcome p, r with
       | inl e, _ => inl e
       | inr _, inl e => inl e
       | inr a, inr l => inr (a :: l)
       end)
  end.

(** ** Arithmetic of lines 16-17 and 56-57 *)

(** [Math.ceil(Math.sqrt(n))] on a non-negative integer. *)
Definition Math_ceil_sqrt (n : Z) : Z :=
  let r := Z.sqrt n in
  if r * r =? n then r else r + 1.

(** [Math.floor(a / b)] on integers, [b] positive.  Exact for the double
    quotient when [a] is at most 2^53 in magnitude and [b] at most 2^16 (a
    grid size): the rounded quotient then stays strictly between the same
    two integers as the real one. *)
Definition Math_floor_div (a b : Z) : Z := a / b.

(** An integer that doubles represent exactly, with every integer between
    it and zero. *)
Definition exact_integer (z : Z) : Prop := - 2 ^ 53 <= z <= 2 ^ 53.

(** [a % b] on integers: the remainder takes the sign of the dividend. *)
Definition js_rem (a b : Z) : Z := Z.rem a b.

(** ** The module *)

Definition msg_no_images : string := "No images provided".
Definition msg_too_small : string :=
  "Output size is too small for the number of images and padding".
Definition msg_invalid_data : string :=
  "Invalid image data: must be a file path or Buffer".

Definition cover_center : ResizeOptions :=
  {| fit := cover; position := center |}.

Section Index.
Context `{FS : FsPromises} `{SH : Sharp}.

Definition fs_readFile (path : string) : Promise Buffer :=
  ([EvReadFile path],
   match readFile path with
   | inl e => inl (FsError e)
   | inr b => inr b
   end).

Definition sharp_resize (src : JsData) (w h : Z) (o : ResizeOptions)
  : Promise Buffer :=
  ([EvSharpResize src w h o],
   match sharp_resize_png src w h o with
   | inl m => inl (SharpError m)
   | inr b => inr b
   end).

Definition sharp_composite (c : Create) (l : list Overlay) : Promise Buffer :=
  ([EvSharpComposite c l],
   match sharp_create_composite_png c l with
   | inl m => inl (SharpError m)
   | inr b => inr b
   end).

(** Lines 27-33: the resolution of one input to a [Buffer]. *)
Definition TileGrid_read (image : Input) : Promise Buffer :=
  match data image with
  | JsString path => fs_readFile path
  | JsBuffer b => resolve b
  | _ => throw (Error msg_invalid_data)
  end.

(** Lines 24-42: the callback mapped over [images]. *)
Definition TileGrid_tile (tileSize : Z) (image : Input) : Promise Buffer :=
  buffer <- TileGrid_read image ;;
  sharp_resize (JsBuffer buffer) tileSize tileSize cover_center.

(** Lines 55-67: the callback mapped over [processed], with its index. *)
Definition TileGrid_place (gridSize tileSize padding : Z)
    (index : nat) (imageBuffer : Buffer) : Overlay :=
  let row := Math_floor_div (Z.of_nat index) gridSize in
  let col := js_rem (Z.of_nat index) gridSize in
  let left := padding + col * (tileSize + padding) in
  let top := padding + row * (tileSize + padding) in
  {| input := imageBuffer; left := left; top := top |}.

(** The argument of [sharp] at lines 46-53. *)
Definition TileGrid_create (options : Options) : Create :=
  {| width := output options; height := output options; channels := 4;
     create_background := default "transparent" (background options) |}.

Definition TileGrid_gridSize (images : list Input) : Z :=
  Math_ceil_sqrt (Z.of_nat (length images)).

Definition TileGrid_tileSize (images : list Input) (options : Options) : Z :=
  let gridSize := TileGrid_gridSize images in
  Math_floor_div
    (output options - default 0 (padding options) * (gridSize + 1)) gridSize.

(** The inputs on which lines 16-17 compute in doubles what
    [TileGrid_gridSize] and [TileGrid_tileSize] compute in [Z]: an array
    length (below 2^32), and [output], [padding], the product and the
    difference of line 17 all exactly representable. *)
Definition exact_geometry (images : list Input) (options : Options) : Prop :=
  Z.of_nat (length images) < 2 ^ 32 /\
  exact_integer (output options) /\
  exact_integer (default 0 (padding options)) /\
  exact_integer (default 0 (padding options) * (TileGrid_gridSize images + 1)) /\
  exact_integer (output options
                 - default 0 (padding options) * (TileGrid_gridSize images + 1)).

Definition TileGrid (images : list Input) (options : Options)
  : Promise Output :=
  if (length images =? 0)%nat then throw (Error msg_no_images) else
  let output := output options in
  let background := default "transparent" (background options) in
  let padding := default 0 (padding options) in
  let gridSize := Math_ceil_sqrt (Z.of_nat (length images)) in
  let tileSize :=
    Math_floor_div (output - padding * (gridSize + 1)) gridSize in
  if tileSize <=? 0 then throw (Error msg_too_small) else
  processed <- Promise_all (map (TileGrid_tile tileSize) images) ;;
  let composite := imap (TileGrid_place gridSize tileSize padding) processed in
  resultBuffer <-
    sharp_composite
      {| width := output; height := output; channels := 4;
         create_background := background |} composite ;;
  resolve {| buffer := resultBuffer;
             gridSize := gridSize;
             count := Z.of_nat (length images) |}.

(** Lines 81-97. *)
Definition resize (image : Input) (size : Z) : Promise Buffer :=
  buffer <- match data image with
            | JsString path => b <- fs_readFile path ;; resolve (JsBuffer b)
            | v => resolve v
            end ;;
  sharp_resize buffer size size cover_center.

End Index.

(** ** Contract of the collaborators used for [resize] *)

(** Modelled from the spec: the resampling itself is done by the image
    collaborator, whose code is not part of the sources.  Its cover-fit
    resize scales a decodable image to fill the requested box and crops the
    overflow, so the result measures exactly the requested width and
    height. *)
Class SharpCover `{Sharp} : Prop := {
  sharp_resize_cover :
    forall (b : Buffer) (w h : Z) (pos : Position),
      is_Some (sharp_metadata b) -> 0 < w -> 0 < h ->
      exists out,
        sharp_resize_png (JsBuffer b) w h {| fit := cover; position := pos |}
          = inr out /\
        sharp_metadata out = Some (w, h)
}.

(** [resolves image b]: the input is a [Buffer] [b], or a path whose file
    reads as [b]. *)
Definition resolves `{FsPromises} (image : Input) (b : Buffer) : Prop :=
  data image = JsBuffer b \/
  exists path, data image = JsString path /\ readFile path = inr b.

(** ** Pixel-level reading of [composite]

    Modelled from the spec: compositing is done by the image collaborator,
    whose code is not part of the sources.  The canvas is a map from pixel
    coordinates to colours; compositing an overlay of side [s] recolours the
    pixels of the square it is placed on (with whatever blending function)
    and leaves every other pixel as it was.  Overlays are applied in array
    order. *)

Section Canvas.
Context {Pixel : Type} (blend : Overlay -> Z -> Z -> Pixel -> Pixel).

Definition covers (s : Z) (o : Overlay) (x y : Z) : bool :=
  (left o <=? x) && (x <? left o + s) && (top o <=? y) && (y <? top o + s).

Definition paint (s : Z) (o : Overlay) (c : Z -> Z -> Pixel) : Z -> Z -> Pixel :=
  fun x y => if covers s o x y then blend o x y (c x y) else c x y.

Definition composite_pixels (s : Z) (l : list Overlay) (c : Z -> Z -> Pixel)
  : Z -> Z -> Pixel :=
  fold_left (fun c o => paint s o c) l c.

End Canvas.

(** Two squares of side [s] have no pixel in common. *)
Definition disjoint_tiles (s : Z) (a b : Overlay) : Prop :=
  forall x y, covers s a x y = true -> covers s b x y = true -> False.

Definition pairwise_disjoint (s : Z) (l : list Overlay) : Prop :=
  forall (i j : nat) a b, i <> j -> l !! i = Some a -> l !! j = Some b ->
    disjoint_tiles s a b.

(** ** A small implementation of the collaborators

    Used to run [TileGrid] and [resize] on concrete inputs.  An image of
    [w] by [h] pixels is stored as [w] bytes, a zero byte and [h] more
    bytes; pixel contents are not represented. *)

Definition sample_encode (w h : Z) : Buffer :=
  repeat Byte.x01 (Z.to_nat w) ++ Byte.x00 :: repeat Byte.x01 (Z.to_nat h).

Fixpoint sample_dims (b : Buffer) : option (Z * Z) :=
  match b with
  | [] => None
  | Byte.x00 :: r => Some (0, Z.of_nat (length r))
  | _ :: r =>
      match sample_dims r with
      | Some (w, h) => Some (w + 1, h)
      | None => None
      end
  end.

Definition sample_decodable (b : Buffer) : bool :=
  match sample_dims b with
  | Some (w, h) => (0 <? w) && (0 <? h)
  | None => false
  end.

Definition sample_metadata (b : Buffer) : option (Z * Z) :=
  if sample_decodable b then sample_dims b else None.

Definition sample_fs : FsPromises :=
  {| readFile path :=
       if String.eqb path "wide.png" then inr (sample_encode 200 100)
       else if String.eqb path "tall.png" then inr (sample_encode 100 200)
       else inl ENOENT |}.

Definition sample_sharp : Sharp :=
  {| sharp_resize_png src w h o :=
       match src with
       | JsBuffer b | JsUint8Array b =>
           if sample_decodable b then
             if (0 <? w) && (0 <? h) then inr (sample_encode w h)
             else inl "Expected positive integer for width and height"
           else inl "Input buffer contains unsupported image format"
       | _ => inl "Unsupported input"
       end;
     sharp_create_composite_png c l :=
       if (0 <? width c) && (0 <? height c) then
         if forallb (fun o => sample_decodable (input o)) l
         then inr (sample_encode (width c) (height c))
         else inl "Input buffer contains unsupported image format"
       else inl "Expected positive integer for width and height";
     sharp_metadata := sample_metadata |}.

Definition sample_image (w h : Z) : Input :=
  {| data := JsBuffer (sample_encode w h); id := None |}.

Definition sample_images : list Input :=
  [sample_image 60 40; sample_image 30 30; sample_image 10 80].

Definition sample_typed_array : Input :=
  {| data := JsUint8Array (sample_encode 200 100); id := None |}.

Definition sample_options (o p : Z) : Options :=
  {| output := o; background := None; padding := Some p |}.

(** ** Reading the list of calls *)

(** The paths handed to [fs.readFile], in call order. *)
Definition paths_read (evs : list Event) : list string :=
  flat_map (fun ev => match ev with EvReadFile path => [path] | _ => [] end) evs.

(** The inputs given as a path, in array order. *)
Definition path_inputs (images : list Input) : list string :=
  flat_map (fun image =>
              match data image with JsString path => [path] | _ => [] end)
    images.

(** * Properties *)

(** ** Arithmetic *)

Lemma Math_ceil_sqrt_least (n : Z) :
  0 <= n ->
  0 <= Math_ceil_sqrt n /\
  n <= Math_ceil_sqrt n * Math_ceil_sqrt n /\
  forall k, 0 <= k -> n <= k * k -> Math_ceil_sqrt n <= k.
Proof.
  intros Hn. unfold Math_ceil_sqrt.
  pose proof (Z.sqrt_spec n Hn) as [Hlo Hhi].
  pose proof (Z.sqrt_nonneg n) as Hr.
  cbv zeta. destruct (Z.eqb_spec (Z.sqrt n * Z.sqrt n) n) as [E|E].
  - repeat split; [lia | lia |]. intros k Hk Hle.
    destruct (Z_lt_le_dec k (Z.sqrt n)); [nia | lia].
  - repeat split; [lia | nia |]. intros k Hk Hle.
    destruct (Z_lt_le_dec k (Z.sqrt n + 1)); [nia | lia].
Qed.

Lemma Math_ceil_sqrt_pos (n : Z) : 1 <= n -> 1 <= Math_ceil_sqrt n.
Proof.
  intros Hn. destruct (Math_ceil_sqrt_least n) as (H0 & Hsq & _); [lia |].
  destruct (Z_lt_le_dec (Math_ceil_sqrt n) 1); [nia | lia].
Qed.

(** The square below the grid size is too small: the first row of the grid
    is always full. *)
Lemma Math_ceil_sqrt_tight (n : Z) :
  1 <= n -> (Math_ceil_sqrt n - 1) * (Math_ceil_sqrt n - 1) < n.
Proof.
  intros Hn. pose proof (Math_ceil_sqrt_pos n Hn) as Hg.
  destruct (Math_ceil_sqrt_least n) as (_ & _ & Hleast); [lia |].
  destruct (Z_lt_le_dec ((Math_ceil_sqrt n - 1) * (Math_ceil_sqrt n - 1)) n)
    as [|Hge]; [assumption |].
  specialize (Hleast (Math_ceil_sqrt n - 1)). lia.
Qed.

Lemma length_nonempty {A} (l : list A) : l <> [] -> 1 <= Z.of_nat (length l).
Proof. destruct l; [congruence | simpl; lia]. Qed.

Lemma Math_floor_div_bounds (a b : Z) :
  0 < b -> b * Math_floor_div a b <= a < b * (Math_floor_div a b + 1).
Proof.
  intros Hb. unfold Math_floor_div.
  pose proof (Z.div_mod a b ltac:(lia)). pose proof (Z.mod_pos_bound a b Hb). lia.
Qed.

(** ** Promises *)

Lemma Promise_all_rejection {A} (ps : list (Promise A)) (e : Rejection) :
  outcome (Promise_all ps) = inl e ->
  exists p, In p ps /\ outcome p = inl e.
Proof.
  induction ps as [|p ps IH]; simpl; [discriminate |].
  destruct (Promise_all ps) as [t r]. unfold outcome in *. simpl in *.
  destruct (snd p) as [e'|a] eqn:Hp.
  - intros [= <-]. exists p. auto.
  - destruct r as [e'|l]; [| discriminate].
    intros [= <-]. destruct (IH eq_refl) as (q & Hq & Hout). exists q. auto.
Qed.

Lemma Promise_all_values {A} (ps : list (Promise A)) (l : list A) :
  outcome (Promise_all ps) = inr l ->
  Forall2 (fun p a => outcome p = inr a) ps l.
Proof.
  revert l. induction ps as [|p ps IH]; simpl; intros l.
  - intros [= <-]. constructor.
  - destruct (Promise_all ps) as [t r]. unfold outcome in *. simpl in *.
    destruct (snd p) as [e'|a] eqn:Hp; [discriminate |].
    destruct r as [e'|l']; [discriminate |].
    intros [= <-]. constructor; auto.
Qed.

Lemma Promise_all_resolved {A} (ps : list (Promise A)) (l : list A) :
  Forall2 (fun p a => outcome p = inr a) ps l ->
  outcome (Promise_all ps) = inr l.
Proof.
  induction 1 as [|p a ps l Hp _ IH]; simpl; [reflexivity |].
  destruct (Promise_all ps) as [t r]. unfold outcome in *. simpl in *.
  rewrite Hp, IH. reflexivity.
Qed.

Lemma await_outcome_inr {A B} (p : Promise A) (k : A -> Promise B) (a : A) :
  outcome p = inr a -> outcome (await p k) = outcome (k a).
Proof.
  destruct p as [t [e|a']]; unfold outcome; simpl; [discriminate |].
  intros [= ->]. destruct (k a); reflexivity.
Qed.

Lemma await_outcome_inl {A B} (p : Promise A) (k : A -> Promise B) (e : Rejection) :
  outcome p = inl e -> outcome (await p k) = inl e.
Proof.
  destruct p as [t [e'|a']]; unfold outcome; simpl; [| discriminate].
  intros [= ->]. reflexivity.
Qed.

Section IndexFacts.
Context `{FS : FsPromises} `{SH : Sharp}.

(** The rejections a tile can produce. *)
Lemma TileGrid_tile_rejection (tileSize : Z) (image : Input) (e : Rejection) :
  outcome (TileGrid_tile tileSize image) = inl e ->
  e = Error msg_invalid_data \/ (exists c, e = FsError c) \/ (exists m, e = SharpError m).
Proof.
  unfold TileGrid_tile, TileGrid_read, fs_readFile, sharp_resize, outcome.
  destruct (data image); simpl; try (intros [= <-]; auto).
  - destruct (readFile s); simpl; [intros [= <-]; eauto |].
    destruct (sharp_resize_png _ _ _ _); simpl; intros [= <-]; eauto.
  - destruct (sharp_resize_png _ _ _ _); simpl; intros [= <-]; eauto.
Qed.

(** The part of [TileGrid] after the two guards (lines 23-78). *)
Lemma TileGrid_guards (images : list Input) (options : Options) :
  images <> [] ->
  TileGrid images options =
    if TileGrid_tileSize images options <=? 0 then throw (Error msg_too_small)
    else
      processed <- Promise_all
        (map (TileGrid_tile (TileGrid_tileSize images options)) images) ;;
      resultBuffer <- sharp_composite
        {| width := output options; height := output options; channels := 4;
           create_background := default "transparent" (background options) |}
        (imap (TileGrid_place (TileGrid_gridSize images)
                 (TileGrid_tileSize images options)
                 (default 0 (padding options))) processed) ;;
      resolve {| buffer := resultBuffer;
                 gridSize := TileGrid_gridSize images;
                 count := Z.of_nat (length images) |}.
Proof.
  intros Hne. unfold TileGrid.
  destruct images as [|i images]; [congruence |]. reflexivity.
Qed.

(** Past the guards the only rejections are those of the tiles and of the
    compositing call. *)
Lemma TileGrid_late_rejection (images : list Input) (options : Options) (m : string) :
  images <> [] -> 0 < TileGrid_tileSize images options ->
  outcome (TileGrid images options) = inl (Error m) -> m = msg_invalid_data.
Proof.
  intros Hne Ht. rewrite (TileGrid_guards _ _ Hne).
  destruct (Z.leb_spec (TileGrid_tileSize images options) 0); [lia |].
  destruct (outcome (Promise_all
    (map (TileGrid_tile (TileGrid_tileSize images options)) images))) as [e|processed] eqn:Hall.
  - rewrite (await_outcome_inl _ _ _ Hall). intros [= ->].
    apply Promise_all_rejection in Hall as (p & Hin & Hp).
    apply in_map_iff in Hin as (im & <- & _).
    apply TileGrid_tile_rejection in Hp as [Hp | [[c Hp] | [m' Hp]]];
      congruence.
  - rewrite (await_outcome_inr _ _ _ Hall).
    unfold sharp_composite, await, resolve, outcome. simpl.
    destruct (sharp_create_composite_png _ _); simpl; discriminate.
Qed.

End IndexFacts.

(** ** Grid size and the returned record *)

(** C1. For a non-empty [images] of length [n], the grid size computed at
    line 16 is the ceiling of the square root of [n] (the least non-negative
    integer whose square reaches [n]; 1 for n=1, 2 for n=2..4, 3 for
    n=5..9).  Every [Output] that [TileGrid] returns carries that value in
    [gridSize] and [n] in [count], and [TileGrid] does return such an
    [Output] once the tile size is positive, every tile is produced and the
    compositing call succeeds. *)
Theorem TileGrid_gridSize_count `{FsPromises} `{Sharp}
    (images : list Input) (options : Options) :
  images <> [] ->
  let n := Z.of_nat (length images) in
  let g := Math_ceil_sqrt n in
  (0 <= g /\ n <= g * g /\ forall k, 0 <= k -> n <= k * k -> g <= k) /\
  (forall out, outcome (TileGrid images options) = inr out ->
     gridSize out = g /\ count out = n) /\
  (forall processed resultBuffer,
     0 < TileGrid_tileSize images options ->
     Forall2 (fun image b =>
                outcome (TileGrid_tile (TileGrid_tileSize images options) image)
                = inr b) images processed ->
     sharp_create_composite_png
       {| width := output options; height := output options; channels := 4;
          create_background := default "transparent" (background options) |}
       (imap (TileGrid_place g (TileGrid_tileSize images options)
                (default 0 (padding options))) processed) = inr resultBuffer ->
     outcome (TileGrid images options) =
       inr {| buffer := resultBuffer; gridSize := g; count := n |}) /\
  map Math_ceil_sqrt [1; 2; 3; 4; 5; 6; 7; 8; 9] = [1; 2; 2; 2; 3; 3; 3; 3; 3].
Proof.
  intros Hne n g. split; [| split; [| split]].
  - apply Math_ceil_sqrt_least. subst n. lia.
  - intros out. rewrite (TileGrid_guards _ _ Hne).
    destruct (Z.leb_spec (TileGrid_tileSize images options) 0);
      [discriminate |].
    destruct (outcome (Promise_all
      (map (TileGrid_tile (TileGrid_tileSize images options)) images)))
      as [e|processed] eqn:Hall.
    + rewrite (await_outcome_inl _ _ _ Hall). discriminate.
    + rewrite (await_outcome_inr _ _ _ Hall).
      unfold sharp_composite, await, resolve, outcome. simpl.
      destruct (sharp_create_composite_png _ _); simpl; [discriminate |].
      intros [= <-]. split; reflexivity.
  - intros processed resultBuffer Ht Htiles Hcomp.
    rewrite (TileGrid_guards _ _ Hne).
    destruct (Z.leb_spec (TileGrid_tileSize images options) 0); [lia |].
    assert (Hall : outcome (Promise_all
      (map (TileGrid_tile (TileGrid_tileSize images options)) images))
      = inr processed).
    { apply Promise_all_resolved.
      generalize (TileGrid_tileSize images options) Htiles. clear.
      intros t Htiles. induction Htiles; simpl; constructor; auto. }
    rewrite (await_outcome_inr _ _ _ Hall).
    unfold sharp_composite, await, resolve, outcome. simpl.
    fold g in Hcomp |- *. unfold TileGrid_gridSize. fold n. fold g.
    rewrite Hcomp. reflexivity.
  - reflexivity.
Qed.

Lemma TileGrid_gridSize_count_witness :
  outcome (@TileGrid sample_fs sample_sharp
             [sample_image 60 40; sample_image 30 30; sample_image 10 80]
             (sample_options 300 5))
  = inr {| buffer := sample_encode 300 300; gridSize := 2; count := 3 |}.
Proof.
  pose proof (@TileGrid_gridSize_count sample_fs sample_sharp
    [sample_image 60 40; sample_image 30 30; sample_image 10 80]
    (sample_options 300 5) ltac:(discriminate)) as (_ & _ & Hret & _).
  apply (Hret [sample_encode 142 142; sample_encode 142 142; sample_encode 142 142]).
  - vm_compute. reflexivity.
  - repeat constructor.
  - vm_compute. reflexivity.
Defined.

(** ** Failure before any work *)

(** C4, as the code has it.  [TileGrid] applied to an empty array is
    rejected with the error of line 11, whose message is "No images
    provided" without a closing full stop, whatever the options are; nothing
    has been called by then. *)
Theorem TileGrid_empty `{FsPromises} `{Sharp} (options : Options) :
  TileGrid [] options = throw (Error "No images provided").
Proof. reflexivity. Qed.

(** C4 as stated fails on the text of the message: the message carried is
    not "No images provided." with a full stop. *)
Lemma TileGrid_empty_counterexample :
  outcome (@TileGrid sample_fs sample_sharp [] (sample_options 200 0))
  <> inl (Error "No images provided.").
Proof. vm_compute. discriminate. Qed.

(** C2, as the code has it.  For a non-empty [images] and options in the
    range where line 17 is computed exactly ([exact_geometry]), the tile
    size of line 17 is the floor of (output - padding*(gridSize+1)) /
    gridSize, and [TileGrid] is rejected with the error of line 20, whose
    message is "Output size is too small for the number of images and
    padding" without a closing full stop, exactly when that tile size is
    zero or negative.  With output=10 and padding=50 this happens for every
    non-empty [images]. *)
Theorem TileGrid_too_small `{FsPromises} `{Sharp}
    (images : list Input) (options : Options) :
  images <> [] ->
  exact_geometry images options ->
  let g := TileGrid_gridSize images in
  let p := default 0 (padding options) in
  let t := TileGrid_tileSize images options in
  g * t <= output options - p * (g + 1) < g * (t + 1) /\
  (outcome (TileGrid images options)
     = inl (Error "Output size is too small for the number of images and padding")
   <-> t <= 0) /\
  (output options = 10 -> padding options = Some 50 ->
   outcome (TileGrid images options)
     = inl (Error "Output size is too small for the number of images and padding")).
Proof.
  intros Hne _ g p t.
  assert (Hg : 1 <= g).
  { apply Math_ceil_sqrt_pos, length_nonempty, Hne. }
  assert (Hfloor : g * t <= output options - p * (g + 1) < g * (t + 1)).
  { apply Math_floor_div_bounds. lia. }
  assert (Hiff : outcome (TileGrid images options) = inl (Error msg_too_small)
                 <-> t <= 0).
  { split.
    - intros Hout. destruct (Z_le_gt_dec t 0) as [|Hpos]; [assumption |].
      apply TileGrid_late_rejection in Hout; [discriminate | assumption | lia].
    - intros Hle. rewrite (TileGrid_guards _ _ Hne). fold t.
      destruct (Z.leb_spec t 0); [reflexivity | lia]. }
  split; [exact Hfloor |]. split; [exact Hiff |].
  intros Ho Hp. apply Hiff. subst p. rewrite Ho, Hp in Hfloor. simpl in Hfloor.
  nia.
Qed.

Lemma TileGrid_too_small_witness :
  outcome (@TileGrid sample_fs sample_sharp
             [sample_image 60 40; sample_image 30 30] (sample_options 10 50))
  = inl (Error "Output size is too small for the number of images and padding").
Proof.
  pose proof (@TileGrid_too_small sample_fs sample_sharp
    [sample_image 60 40; sample_image 30 30] (sample_options 10 50)
    ltac:(discriminate)
    ltac:(unfold exact_geometry, exact_integer; vm_compute; intuition discriminate))
    as (_ & _ & Hex).
  apply Hex; reflexivity.
Defined.

(** C2 as stated fails on the text of the message: with one image,
    output=10 and padding=50 the tile size is -90 and the message carried is
    not the one that ends in a full stop. *)
Lemma TileGrid_too_small_counterexample :
  TileGrid_tileSize [sample_image 60 40] (sample_options 10 50) = -90 /\
  outcome (@TileGrid sample_fs sample_sharp [sample_image 60 40]
             (sample_options 10 50))
  <> inl (Error "Output size is too small for the number of images and padding.").
Proof. split; [reflexivity | vm_compute; discriminate]. Qed.

Lemma calls_await {A B} (p : Promise A) (k : A -> Promise B) :
  calls (await p k) =
    match outcome p with
    | inl _ => calls p
    | inr a => calls p ++ calls (k a)
    end.
Proof.
  destruct p as [t [e|a]]; unfold calls, outcome; simpl; [reflexivity |].
  destruct (k a); reflexivity.
Qed.

(** C9. When [TileGrid] is rejected with the error of line 11 or with the
    error of line 20, it has called neither [fs.readFile] nor [sharp]: the
    two checks come before any input is read or decoded. *)
Theorem TileGrid_guards_before_calls `{FsPromises} `{Sharp}
    (images : list Input) (options : Options) :
  (images = [] \/ TileGrid_tileSize images options <= 0 ->
   calls (TileGrid images options) = []) /\
  (outcome (TileGrid images options) = inl (Error "No images provided") \/
   outcome (TileGrid images options)
     = inl (Error "Output size is too small for the number of images and padding") ->
   calls (TileGrid images options) = []).
Proof.
  assert (Hguard : images = [] \/ TileGrid_tileSize images options <= 0 ->
                   calls (TileGrid images options) = []).
  { intros [-> | Hle]; [reflexivity |].
    destruct images as [|i images]; [reflexivity |].
    rewrite TileGrid_guards by discriminate.
    destruct (Z.leb_spec (TileGrid_tileSize (i :: images) options) 0);
      [reflexivity | lia]. }
  split; [exact Hguard |].
  intros Hout. apply Hguard.
  destruct images as [|i images]; [left; reflexivity | right].
  destruct (Z_le_gt_dec (TileGrid_tileSize (i :: images) options) 0)
    as [|Hpos]; [assumption |].
  destruct Hout as [Hout | Hout];
    apply TileGrid_late_rejection in Hout; try discriminate; lia.
Qed.

Lemma TileGrid_guards_before_calls_witness :
  calls (@TileGrid sample_fs sample_sharp
           [{| data := JsString "wide.png"; id := None |}]
           (sample_options 10 50)) = [].
Proof.
  apply (@TileGrid_guards_before_calls sample_fs sample_sharp
           [{| data := JsString "wide.png"; id := None |}]
           (sample_options 10 50)).
  right. reflexivity.
Defined.

(** ** Geometry of the placement *)

Section Geometry.
Variables gridSize tileSize padding : Z.
Hypothesis gridSize_pos : 1 <= gridSize.

Let place := TileGrid_place gridSize tileSize padding.

Lemma place_col (i : nat) :
  js_rem (Z.of_nat i) gridSize = Z.of_nat i mod gridSize /\
  0 <= Z.of_nat i mod gridSize <= gridSize - 1.
Proof.
  unfold js_rem. rewrite Z.rem_mod_nonneg by lia.
  pose proof (Z.mod_pos_bound (Z.of_nat i) gridSize ltac:(lia)). lia.
Qed.

Lemma place_row (i : nat) :
  Math_floor_div (Z.of_nat i) gridSize = Z.of_nat i / gridSize /\
  0 <= Z.of_nat i / gridSize /\
  Z.of_nat i = gridSize * (Z.of_nat i / gridSize) + Z.of_nat i mod gridSize.
Proof.
  split; [reflexivity |]. split.
  - apply Z.div_pos; lia.
  - apply Z.div_mod. lia.
Qed.

Lemma place_row_bound (i : nat) (n : Z) :
  Z.of_nat i < n -> n <= gridSize * gridSize ->
  Z.of_nat i / gridSize <= gridSize - 1.
Proof.
  intros Hi Hn. destruct (place_row i) as (_ & Hr & Hdiv).
  destruct (place_col i) as (_ & Hc).
  destruct (Z_lt_le_dec (Z.of_nat i / gridSize) gridSize); [lia | nia].
Qed.

Lemma place_left (i : nat) (b : Buffer) :
  left (place i b) = padding + (Z.of_nat i mod gridSize) * (tileSize + padding).
Proof.
  unfold place, TileGrid_place. simpl.
  destruct (place_col i) as (-> & _). reflexivity.
Qed.

Lemma place_top (i : nat) (b : Buffer) :
  top (place i b) = padding + (Z.of_nat i / gridSize) * (tileSize + padding).
Proof. reflexivity. Qed.

Lemma place_input (i : nat) (b : Buffer) : input (place i b) = b.
Proof. reflexivity. Qed.

(** Different indices occupy different cells. *)
Lemma place_cell_inj (i j : nat) :
  Z.of_nat i mod gridSize = Z.of_nat j mod gridSize ->
  Z.of_nat i / gridSize = Z.of_nat j / gridSize ->
  i = j.
Proof.
  intros Hc Hr. destruct (place_row i) as (_ & _ & Hi).
  destruct (place_row j) as (_ & _ & Hj). lia.
Qed.

Lemma steps_apart (a b s : Z) : a < b -> 0 <= s -> a * s + s <= b * s.
Proof. intros Hab Hs. nia. Qed.

Lemma place_disjoint (i j : nat) (bi bj : Buffer) :
  0 < tileSize -> 0 <= padding -> i <> j ->
  disjoint_tiles tileSize (place i bi) (place j bj).
Proof.
  intros Ht Hp Hij x y Hi Hj. unfold covers in Hi, Hj.
  rewrite !place_left in *. rewrite !place_top in *.
  apply andb_prop in Hi as [Hi Hi4]. apply andb_prop in Hi as [Hi Hi3].
  apply andb_prop in Hi as [Hi1 Hi2].
  apply andb_prop in Hj as [Hj Hj4]. apply andb_prop in Hj as [Hj Hj3].
  apply andb_prop in Hj as [Hj1 Hj2].
  apply Z.leb_le in Hi1, Hi3, Hj1, Hj3. apply Z.ltb_lt in Hi2, Hi4, Hj2, Hj4.
  apply Hij, place_cell_inj.
  - set (ci := Z.of_nat i mod gridSize) in *.
    set (cj := Z.of_nat j mod gridSize) in *.
    destruct (Z.lt_trichotomy ci cj) as [Hlt | [Heq | Hgt]]; [| exact Heq |].
    + pose proof (steps_apart ci cj (tileSize + padding) Hlt ltac:(lia)). lia.
    + pose proof (steps_apart cj ci (tileSize + padding) ltac:(lia) ltac:(lia)). lia.
  - set (ri := Z.of_nat i / gridSize) in *.
    set (rj := Z.of_nat j / gridSize) in *.
    destruct (Z.lt_trichotomy ri rj) as [Hlt | [Heq | Hgt]]; [| exact Heq |].
    + pose proof (steps_apart ri rj (tileSize + padding) Hlt ltac:(lia)). lia.
    + pose proof (steps_apart rj ri (tileSize + padding) ltac:(lia) ltac:(lia)). lia.
Qed.

End Geometry.

(** ** The compositing call *)

Lemma calls_Promise_all {A} (ps : list (Promise A)) :
  calls (Promise_all ps) = concat (map calls ps).
Proof.
  induction ps as [|p ps IH]; simpl; [reflexivity |].
  destruct (Promise_all ps) as [t r]. unfold calls in *. simpl in *.
  rewrite IH. reflexivity.
Qed.

Section CompositeCall.
Context `{FS : FsPromises} `{SH : Sharp}.

Lemma TileGrid_tile_calls (tileSize : Z) (image : Input) (e : Event) :
  In e (calls (TileGrid_tile tileSize image)) -> ~ is_composite e.
Proof.
  unfold TileGrid_tile, TileGrid_read. rewrite calls_await.
  destruct (data image); simpl;
    try (destruct (readFile s); simpl);
    intros Hin; repeat (destruct Hin as [<- | Hin]; [simpl; tauto |]);
    destruct Hin.
Qed.

Lemma TileGrid_tiles_calls (tileSize : Z) (images : list Input) (e : Event) :
  In e (calls (Promise_all (map (TileGrid_tile tileSize) images))) ->
  ~ is_composite e.
Proof.
  rewrite calls_Promise_all. intros Hin.
  apply in_concat in Hin as (t & Ht & He).
  apply in_map_iff in Ht as (p & <- & Hp).
  apply in_map_iff in Hp as (image & <- & _).
  eapply TileGrid_tile_calls, He.
Qed.

Lemma Forall2_map_outcome {A B} (f : A -> Promise B) (l : list A) (k : list B) :
  Forall2 (fun p b => outcome p = inr b) (map f l) k <->
  Forall2 (fun a b => outcome (f a) = inr b) l k.
Proof.
  split.
  - revert k. induction l as [|a l IH]; simpl; intros k Hk; inversion Hk; subst;
      constructor; auto.
  - induction 1; simpl; constructor; auto.
Qed.

(** [sharp(...).composite] is called at most once, after every tile has
    been produced, with the placements of lines 55-67. *)
Lemma TileGrid_composite_call (images : list Input) (options : Options)
    (c : Create) (l : list Overlay) :
  In (EvSharpComposite c l) (calls (TileGrid images options)) ->
  images <> [] /\ 0 < TileGrid_tileSize images options /\
  c = TileGrid_create options /\
  exists processed,
    Forall2 (fun image b =>
               outcome (TileGrid_tile (TileGrid_tileSize images options) image)
               = inr b) images processed /\
    l = imap (TileGrid_place (TileGrid_gridSize images)
                (TileGrid_tileSize images options)
                (default 0 (padding options))) processed.
Proof.
  intros Hin.
  destruct images as [|i0 images]; [destruct Hin |].
  set (imgs := i0 :: images) in *.
  assert (Hne : imgs <> []) by discriminate.
  rewrite (TileGrid_guards _ _ Hne) in Hin.
  destruct (Z.leb_spec (TileGrid_tileSize imgs options) 0); [destruct Hin |].
  split; [exact Hne |]. split; [lia |].
  rewrite calls_await in Hin.
  destruct (outcome (Promise_all
    (map (TileGrid_tile (TileGrid_tileSize imgs options)) imgs)))
    as [e|processed] eqn:Hall.
  - apply TileGrid_tiles_calls in Hin. simpl in Hin. tauto.
  - apply in_app_or in Hin as [Hin | Hin].
    + apply TileGrid_tiles_calls in Hin. simpl in Hin. tauto.
    + rewrite calls_await in Hin. unfold sharp_composite, outcome, calls in Hin.
      simpl in Hin.
      assert (Hev : EvSharpComposite c l =
                    EvSharpComposite (TileGrid_create options)
                      (imap (TileGrid_place (TileGrid_gridSize imgs)
                         (TileGrid_tileSize imgs options)
                         (default 0 (padding options))) processed)).
      { destruct (sharp_create_composite_png _ _); simpl in Hin;
          destruct Hin as [<- | []]; reflexivity. }
      injection Hev as -> ->. split; [reflexivity |].
      exists processed. split; [| reflexivity].
      apply Forall2_map_outcome, Promise_all_values, Hall.
Qed.

(** Conversely, the call is issued as soon as the guards pass and every
    tile is produced. *)
Lemma TileGrid_composite_issued (images : list Input) (options : Options)
    (processed : list Buffer) :
  images <> [] -> 0 < TileGrid_tileSize images options ->
  Forall2 (fun image b =>
             outcome (TileGrid_tile (TileGrid_tileSize images options) image)
             = inr b) images processed ->
  In (EvSharpComposite (TileGrid_create options)
        (imap (TileGrid_place (TileGrid_gridSize images)
                 (TileGrid_tileSize images options)
                 (default 0 (padding options))) processed))
     (calls (TileGrid images options)).
Proof.
  intros Hne Ht Htiles. rewrite (TileGrid_guards _ _ Hne).
  destruct (Z.leb_spec (TileGrid_tileSize images options) 0); [lia |].
  apply Forall2_map_outcome, Promise_all_resolved in Htiles.
  rewrite calls_await, Htiles. apply in_or_app. right.
  rewrite calls_await. unfold sharp_composite, outcome, calls. simpl.
  destruct (sharp_create_composite_png _ _); simpl; auto.
Qed.

End CompositeCall.

(** An overlay handed to [composite] is the placement of a produced tile. *)
Lemma TileGrid_overlay_lookup `{FsPromises} `{Sharp}
    (images : list Input) (options : Options)
    (c : Create) (l : list Overlay) (i : nat) (o : Overlay) :
  In (EvSharpComposite c l) (calls (TileGrid images options)) ->
  l !! i = Some o ->
  1 <= TileGrid_gridSize images /\
  0 < TileGrid_tileSize images options /\
  Z.of_nat i < Z.of_nat (length images) /\
  o = TileGrid_place (TileGrid_gridSize images)
        (TileGrid_tileSize images options) (default 0 (padding options))
        i (input o) /\
  exists image, images !! i = Some image /\
    outcome (TileGrid_tile (TileGrid_tileSize images options) image)
    = inr (input o).
Proof.
  intros Hin Hl.
  apply TileGrid_composite_call in Hin as (Hne & Ht & _ & processed & Htiles & ->).
  rewrite list_lookup_imap in Hl.
  destruct (processed !! i) as [b|] eqn:Hb; [| discriminate].
  simpl in Hl. injection Hl as <-.
  destruct (Forall2_lookup_r _ _ _ _ _ Htiles Hb) as (image & Him & Hout).
  split; [apply Math_ceil_sqrt_pos, length_nonempty, Hne |].
  split; [exact Ht |]. split.
  - apply lookup_lt_Some in Him. lia.
  - split; [reflexivity |]. exists image. split; assumption.
Qed.

(** C3. The array handed to [composite] has one entry per input, and its
    entry at zero-based index [i] is the resized tile of input [i] placed at
    left = padding + (i mod gridSize)*(tileSize+padding) and
    top = padding + floor(i / gridSize)*(tileSize+padding).  The call is
    made as soon as the guards pass and every tile has been produced. *)
Theorem TileGrid_placement `{FsPromises} `{Sharp}
    (images : list Input) (options : Options) :
  let g := TileGrid_gridSize images in
  let p := default 0 (padding options) in
  let t := TileGrid_tileSize images options in
  (forall c l, In (EvSharpComposite c l) (calls (TileGrid images options)) ->
     length l = length images /\
     forall i o, l !! i = Some o ->
       left o = p + (Z.of_nat i mod g) * (t + p) /\
       top o = p + (Z.of_nat i / g) * (t + p) /\
       exists image, images !! i = Some image /\
         outcome (TileGrid_tile t image) = inr (input o)) /\
  (forall processed, images <> [] -> 0 < t ->
     Forall2 (fun image b => outcome (TileGrid_tile t image) = inr b)
       images processed ->
     exists l, In (EvSharpComposite (TileGrid_create options) l)
                 (calls (TileGrid images options)) /\
               map input l = processed).
Proof.
  intros g p t. split.
  - intros c l Hin. split.
    + apply TileGrid_composite_call in Hin
        as (_ & _ & _ & processed & Htiles & ->).
      rewrite length_imap. symmetry. eapply Forall2_length, Htiles.
    + intros i o Hl.
      destruct (TileGrid_overlay_lookup _ _ _ _ _ _ Hin Hl)
        as (Hg & _ & _ & Ho & Himage).
      fold g p t in Ho, Himage, Hg. split; [| split; [| exact Himage]].
      * rewrite Ho. apply place_left. exact Hg.
      * rewrite Ho. apply place_top.
  - intros processed Hne Ht Htiles. eexists. split.
    + apply (TileGrid_composite_issued _ _ processed Hne Ht Htiles).
    + apply list_eq. intros i.
      rewrite list_lookup_fmap, list_lookup_imap.
      destruct (processed !! i); reflexivity.
Qed.

Lemma TileGrid_placement_witness :
  exists l,
    In (EvSharpComposite (TileGrid_create (sample_options 300 5)) l)
       (calls (@TileGrid sample_fs sample_sharp sample_images
                 (sample_options 300 5))) /\
    l !! 2%nat = Some {| input := sample_encode 142 142; left := 5; top := 152 |}.
Proof.
  destruct (@TileGrid_placement sample_fs sample_sharp sample_images
              (sample_options 300 5)) as [Hplaced Hissued].
  destruct (Hissued
              [sample_encode 142 142; sample_encode 142 142; sample_encode 142 142])
    as (l & Hin & Hmap).
  - discriminate.
  - reflexivity.
  - repeat constructor.
  - exists l. split; [exact Hin |].
    destruct (Hplaced _ _ Hin) as [Hlen Hidx].
    destruct l as [|o0 [|o1 [|o2 [|o3 l]]]]; try discriminate Hlen.
    destruct (Hidx 2%nat o2 eq_refl) as (Hleft & Htop & _).
    injection Hmap as _ _ Hinput.
    destruct o2 as [b x y]. simpl in *. subst b.
    change (x = 5) in Hleft. change (y = 152) in Htop. subst. reflexivity.
Defined.

(** ** Tiles stay inside the canvas *)

Lemma TileGrid_tileSize_pos_nonempty (images : list Input) (options : Options) :
  0 < TileGrid_tileSize images options -> images <> [].
Proof.
  intros Ht ->. unfold TileGrid_tileSize, Math_floor_div in Ht. simpl in Ht.
  rewrite Z.div_0_r in Ht. lia.
Qed.

Lemma TileGrid_geometry_facts (images : list Input) (options : Options) :
  images <> [] ->
  1 <= TileGrid_gridSize images /\
  Z.of_nat (length images) <= TileGrid_gridSize images * TileGrid_gridSize images /\
  (TileGrid_gridSize images - 1) * (TileGrid_gridSize images - 1)
    < Z.of_nat (length images) /\
  output options - default 0 (padding options) * (TileGrid_gridSize images + 1)
    = TileGrid_gridSize images * TileGrid_tileSize images options
      + (output options
         - default 0 (padding options) * (TileGrid_gridSize images + 1))
        mod TileGrid_gridSize images /\
  0 <= (output options
        - default 0 (padding options) * (TileGrid_gridSize images + 1))
       mod TileGrid_gridSize images < TileGrid_gridSize images.
Proof.
  intros Hne. pose proof (length_nonempty _ Hne) as Hn.
  pose proof (Math_ceil_sqrt_pos _ Hn) as Hg.
  destruct (Math_ceil_sqrt_least (Z.of_nat (length images))) as (_ & Hsq & _);
    [lia |].
  pose proof (Math_ceil_sqrt_tight _ Hn) as Htight.
  unfold TileGrid_gridSize, TileGrid_tileSize, Math_floor_div.
  repeat split; try assumption.
  - apply Z.div_mod. unfold TileGrid_gridSize. lia.
  - apply Z.mod_pos_bound. lia.
  - apply Z.mod_pos_bound. lia.
Qed.

(** C10. In a valid composition (at least one image, positive tile size,
    non-negative padding) the square of every placed tile lies inside the
    output-by-output canvas: left >= padding, top >= padding,
    left + tileSize <= output and top + tileSize <= output. *)
Theorem TileGrid_tiles_inside `{FsPromises} `{Sharp}
    (images : list Input) (options : Options) :
  images <> [] ->
  0 < TileGrid_tileSize images options ->
  0 <= default 0 (padding options) ->
  let g := TileGrid_gridSize images in
  let p := default 0 (padding options) in
  let t := TileGrid_tileSize images options in
  (forall (i : nat) (b : Buffer), (i < length images)%nat ->
     p <= left (TileGrid_place g t p i b) /\
     p <= top (TileGrid_place g t p i b) /\
     left (TileGrid_place g t p i b) + t <= output options /\
     top (TileGrid_place g t p i b) + t <= output options) /\
  (forall c l o, In (EvSharpComposite c l) (calls (TileGrid images options)) ->
     In o l ->
     p <= left o /\ p <= top o /\
     left o + t <= output options /\ top o + t <= output options).
Proof.
  intros Hne Ht Hp g p t.
  destruct (TileGrid_geometry_facts images options Hne)
    as (Hg & Hsq & _ & Hdiv & Hmod).
  fold g p t in Hg, Hsq, Hdiv, Hmod.
  assert (Hplace : forall (i : nat) (b : Buffer), (i < length images)%nat ->
     p <= left (TileGrid_place g t p i b) /\
     p <= top (TileGrid_place g t p i b) /\
     left (TileGrid_place g t p i b) + t <= output options /\
     top (TileGrid_place g t p i b) + t <= output options).
  { intros i b Hi. rewrite place_left by exact Hg. rewrite place_top.
    destruct (place_col g Hg i) as (_ & Hc).
    destruct (place_row g Hg i) as (_ & Hr & _).
    pose proof (place_row_bound g Hg i (Z.of_nat (length images))
                  ltac:(lia) Hsq) as Hrb.
    set (col := Z.of_nat i mod g) in *. set (row := Z.of_nat i / g) in *.
    assert (0 <= col * (t + p) <= (g - 1) * (t + p)) by nia.
    assert (0 <= row * (t + p) <= (g - 1) * (t + p)) by nia.
    lia. }
  split; [exact Hplace |].
  intros c l o Hin Ho. apply list_elem_of_In, list_elem_of_lookup in Ho as [i Hl].
  destruct (TileGrid_overlay_lookup _ _ _ _ _ _ Hin Hl) as (_ & _ & Hi & Heq & _).
  rewrite Heq. apply Hplace. lia.
Qed.

Lemma TileGrid_tiles_inside_witness :
  left (TileGrid_place 2 142 5 1 (sample_encode 142 142)) + 142 <= 300 /\
  top (TileGrid_place 2 142 5 2 (sample_encode 142 142)) + 142 <= 300.
Proof.
  set (b := sample_encode 142 142).
  destruct (@TileGrid_tiles_inside sample_fs sample_sharp sample_images
              (sample_options 300 5)) as [Hplace _].
  - discriminate.
  - reflexivity.
  - discriminate.
  - destruct (Hplace 1%nat b) as (_ & _ & Hl & _); [simpl; lia |].
    destruct (Hplace 2%nat b) as (_ & _ & _ & Ht); [simpl; lia |].
    split; [exact Hl | exact Ht].
Defined.

(** ** Tiles do not overlap *)

Section CanvasFacts.
Context {Pixel : Type} (blend : Overlay -> Z -> Z -> Pixel -> Pixel).
Variable s : Z.

(** The colour of one pixel after compositing: the overlays covering it are
    blended onto it in array order. *)
Lemma composite_pixels_at (l : list Overlay) (c : Z -> Z -> Pixel) (x y : Z) :
  composite_pixels blend s l c x y =
    fold_left (fun v o => blend o x y v)
      (List.filter (fun o => covers s o x y) l) (c x y).
Proof.
  unfold composite_pixels. revert c.
  induction l as [|o l IH]; intros c; simpl; [reflexivity |].
  rewrite IH. unfold paint.
  destruct (covers s o x y); reflexivity.
Qed.

Lemma filter_Permutation_bool {A} (f : A -> bool) (l l' : list A) :
  Permutation l l' -> Permutation (List.filter f l) (List.filter f l').
Proof.
  induction 1; simpl.
  - constructor.
  - destruct (f x); [constructor |]; assumption.
  - destruct (f x), (f y); try constructor; apply Permutation_refl.
  - eapply perm_trans; eassumption.
Qed.

Lemma pairwise_disjoint_tail (o : Overlay) (l : list Overlay) :
  pairwise_disjoint s (o :: l) -> pairwise_disjoint s l.
Proof.
  intros Hd i j a b Hij Ha Hb. apply (Hd (S i) (S j)); [lia | exact Ha | exact Hb].
Qed.

Lemma pairwise_disjoint_hits (l : list Overlay) (x y : Z) :
  pairwise_disjoint s l ->
  (length (List.filter (fun o => covers s o x y) l) <= 1)%nat.
Proof.
  induction l as [|o l IH]; intros Hd; simpl; [lia |].
  destruct (covers s o x y) eqn:Ho.
  - assert (Hnone : List.filter (fun o => covers s o x y) l = []).
    { destruct (List.filter (fun o => covers s o x y) l) as [|b k] eqn:Hf;
        [reflexivity | exfalso].
      assert (Hb : In b (List.filter (fun o => covers s o x y) l))
        by (rewrite Hf; left; reflexivity).
      apply List.filter_In in Hb as [Hb Hcov].
      apply list_elem_of_In, list_elem_of_lookup in Hb as [j Hj].
      apply (Hd 0%nat (S j) o b ltac:(lia) eq_refl Hj x y Ho Hcov). }
    rewrite Hnone. simpl. lia.
  - apply IH, (pairwise_disjoint_tail o), Hd.
Qed.

(** Pairwise disjoint overlays can be composited in any order. *)
Lemma composite_pixels_order (l l' : list Overlay) (c : Z -> Z -> Pixel) (x y : Z) :
  pairwise_disjoint s l -> Permutation l l' ->
  composite_pixels blend s l' c x y = composite_pixels blend s l c x y.
Proof.
  intros Hd Hperm. rewrite !composite_pixels_at.
  pose proof (pairwise_disjoint_hits l x y Hd) as Hlen.
  pose proof (filter_Permutation_bool (fun o => covers s o x y) _ _ Hperm) as Hp.
  destruct (List.filter (fun o => covers s o x y) l) as [|a [|b k]];
    simpl in Hlen; [| | lia].
  - apply Permutation_nil in Hp. rewrite Hp. reflexivity.
  - apply Permutation_length_1_inv in Hp. rewrite Hp. reflexivity.
Qed.

End CanvasFacts.

(** C6, as the code has it.  With a positive tile size and a non-negative
    padding, the tileSize-by-tileSize squares placed for two different
    indices below the image count have no pixel in common; hence
    compositing the overlays of the call in any other order gives the same
    colour at every pixel. *)
Theorem TileGrid_tiles_disjoint `{FsPromises} `{Sharp}
    (images : list Input) (options : Options) :
  0 <= default 0 (padding options) ->
  0 < TileGrid_tileSize images options ->
  let g := TileGrid_gridSize images in
  let p := default 0 (padding options) in
  let t := TileGrid_tileSize images options in
  (forall (i j : nat) (bi bj : Buffer),
     (i < length images)%nat -> (j < length images)%nat -> i <> j ->
     disjoint_tiles t (TileGrid_place g t p i bi) (TileGrid_place g t p j bj)) /\
  (forall c l, In (EvSharpComposite c l) (calls (TileGrid images options)) ->
     pairwise_disjoint t l /\
     forall (Pixel : Type) (blend : Overlay -> Z -> Z -> Pixel -> Pixel)
            (canvas : Z -> Z -> Pixel) (l' : list Overlay),
       Permutation l l' ->
       forall x y, composite_pixels blend t l' canvas x y
                   = composite_pixels blend t l canvas x y).
Proof.
  intros Hp Ht g p t.
  pose proof (TileGrid_tileSize_pos_nonempty _ _ Ht) as Hne.
  destruct (TileGrid_geometry_facts images options Hne) as (Hg & _).
  fold g in Hg. split.
  - intros i j bi bj _ _ Hij. apply place_disjoint; assumption.
  - intros c l Hin.
    assert (Hd : pairwise_disjoint t l).
    { intros i j a b Hij Ha Hb.
      destruct (TileGrid_overlay_lookup _ _ _ _ _ _ Hin Ha) as (_ & _ & _ & -> & _).
      destruct (TileGrid_overlay_lookup _ _ _ _ _ _ Hin Hb) as (_ & _ & _ & -> & _).
      apply place_disjoint; assumption. }
    split; [exact Hd |].
    intros Pixel blend canvas l' Hperm x y.
    apply composite_pixels_order; assumption.
Qed.

Lemma TileGrid_tiles_disjoint_witness :
  disjoint_tiles 142
    (TileGrid_place 2 142 5 0 (sample_encode 142 142))
    (TileGrid_place 2 142 5 1 (sample_encode 142 142)).
Proof.
  destruct (@TileGrid_tiles_disjoint sample_fs sample_sharp sample_images
              (sample_options 300 5)) as [Hplace _].
  - discriminate.
  - reflexivity.
  - apply (Hplace 0%nat 1%nat); [simpl; lia | simpl; lia | discriminate].
Defined.

(** C6 as stated fails: a positive tile size is not enough.  The code
    takes a negative padding as it comes: two images with output=100 and
    padding=-10 give a grid of side 2 and tiles of side 65, placed at
    left=-10 and left=45 in the same row.  Both squares contain the canvas
    pixel (50, 0), and with a blending that lets the overlay win the colour
    of that pixel depends on the order of the two overlays. *)
Lemma TileGrid_tiles_disjoint_counterexample :
  0 < TileGrid_tileSize [sample_image 60 40; sample_image 30 30]
        (sample_options 100 (-10)) /\
  exists c o0 o1,
    In (EvSharpComposite c [o0; o1])
       (calls (@TileGrid sample_fs sample_sharp
                 [sample_image 60 40; sample_image 30 30]
                 (sample_options 100 (-10)))) /\
    left o0 = -10 /\ left o1 = 45 /\ top o0 = -10 /\ top o1 = -10 /\
    ~ disjoint_tiles
        (TileGrid_tileSize [sample_image 60 40; sample_image 30 30]
           (sample_options 100 (-10))) o0 o1 /\
    composite_pixels (fun o _ _ _ => left o) 65 [o0; o1] (fun _ _ => 0) 50 0
    <> composite_pixels (fun o _ _ _ => left o) 65 [o1; o0] (fun _ _ => 0) 50 0.
Proof.
  split; [reflexivity |].
  exists (TileGrid_create (sample_options 100 (-10))).
  exists (TileGrid_place 2 65 (-10) 0 (sample_encode 65 65)).
  exists (TileGrid_place 2 65 (-10) 1 (sample_encode 65 65)).
  split; [vm_compute; do 2 right; left; reflexivity |].
  repeat (split; [reflexivity |]).
  split.
  - intros Hd. apply (Hd 50 0); reflexivity.
  - vm_compute. discriminate.
Qed.

(** ** Margins *)

(** C7, as the code has it.  In a composition of at least one image, write
    r = (output - padding*(gridSize+1)) mod gridSize for what the floor of
    line 17 discards (0 <= r < gridSize).  A tile of the first column has
    left = padding and a tile of the first row has top = padding.  For every
    tile, output - (left + tileSize) = padding + r + (gridSize-1-col) *
    (tileSize+padding) and output - (top + tileSize) = padding + r +
    (gridSize-1-row) * (tileSize+padding).  So the margin right of the last
    column (which is always occupied) is padding + r, and equals padding
    exactly when gridSize divides output - padding*(gridSize+1); the margin
    below grid row gridSize-1 is padding + r as well, and that row is
    occupied exactly when count > gridSize*(gridSize-1). *)
Theorem TileGrid_margins `{FsPromises} `{Sharp}
    (images : list Input) (options : Options) :
  images <> [] ->
  let g := TileGrid_gridSize images in
  let p := default 0 (padding options) in
  let t := TileGrid_tileSize images options in
  let n := Z.of_nat (length images) in
  let r := (output options - p * (g + 1)) mod g in
  0 <= r < g /\
  (forall (i : nat) (b : Buffer),
     let o := TileGrid_place g t p i b in
     let col := Z.of_nat i mod g in
     let row := Z.of_nat i / g in
     (col = 0 -> left o = p) /\
     (row = 0 -> top o = p) /\
     output options - (left o + t) = p + r + (g - 1 - col) * (t + p) /\
     output options - (top o + t) = p + r + (g - 1 - row) * (t + p) /\
     (col = g - 1 -> output options - (left o + t) = p + r) /\
     (row = g - 1 -> output options - (top o + t) = p + r) /\
     (col = g - 1 -> (output options - (left o + t) = p <-> r = 0))) /\
  (exists i : nat, Z.of_nat i < n /\ Z.of_nat i mod g = g - 1) /\
  ((n - 1) / g = g - 1 <-> g * (g - 1) < n) /\
  (forall c l (i : nat) o,
     In (EvSharpComposite c l) (calls (TileGrid images options)) ->
     l !! i = Some o ->
     output options - (left o + t)
       = p + r + (g - 1 - Z.of_nat i mod g) * (t + p) /\
     output options - (top o + t)
       = p + r + (g - 1 - Z.of_nat i / g) * (t + p)).
Proof.
  intros Hne g p t n r.
  destruct (TileGrid_geometry_facts images options Hne)
    as (Hg & Hsq & Htight & Hdiv & Hmod).
  fold g p t n r in Hg, Hsq, Htight, Hdiv, Hmod.
  assert (Hgen : forall (i : nat) (b : Buffer),
    output options - (left (TileGrid_place g t p i b) + t)
      = p + r + (g - 1 - Z.of_nat i mod g) * (t + p) /\
    output options - (top (TileGrid_place g t p i b) + t)
      = p + r + (g - 1 - Z.of_nat i / g) * (t + p)).
  { intros i b. rewrite place_left by exact Hg. rewrite place_top.
    clearbody g p t n r.
    assert (Hout : output options = g * t + r + p * (g + 1)) by lia.
    rewrite Hout. split; ring. }
  split; [exact Hmod |]. split; [| split; [| split]].
  - intros i b o col row. destruct (Hgen i b) as [Hl Ht].
    fold o col row in Hl, Ht.
    assert (Hleft : left o = p + col * (t + p)) by (apply place_left; exact Hg).
    assert (Htop : top o = p + row * (t + p)) by apply place_top.
    split; [intros Hc; rewrite Hleft, Hc; lia |].
    split; [intros Hr; rewrite Htop, Hr; lia |].
    split; [exact Hl |]. split; [exact Ht |].
    split; [intros Hc; rewrite Hl, Hc; lia |].
    split; [intros Hr; rewrite Ht, Hr; lia |].
    intros Hc. rewrite Hl, Hc. lia.
  - clear Hgen. clearbody g p t n r.
    exists (Z.to_nat (g - 1)). rewrite Z2Nat.id by lia.
    split; [destruct (Z.eq_dec g 1); [subst; lia | nia] |].
    apply Z.mod_small. lia.
  - clear Hgen. clearbody g p t n r.
    pose proof (Z.div_mod (n - 1) g ltac:(lia)) as Hdm.
    pose proof (Z.mod_pos_bound (n - 1) g ltac:(lia)) as Hmb.
    split.
    + intros Hrow. rewrite Hrow in Hdm. lia.
    + intros Hlast. assert ((n - 1) / g < g) by nia.
      assert (g - 1 <= (n - 1) / g) by (apply Z.div_le_lower_bound; lia).
      lia.
  - intros c l i o Hin Hl.
    destruct (TileGrid_overlay_lookup _ _ _ _ _ _ Hin Hl) as (_ & _ & _ & -> & _).
    apply Hgen.
Qed.

Lemma TileGrid_margins_witness :
  output (sample_options 300 5)
  - (left (TileGrid_place 2 142 5 1 (sample_encode 142 142)) + 142) = 5 + 1.
Proof.
  destruct (@TileGrid_margins sample_fs sample_sharp sample_images
              (sample_options 300 5) ltac:(discriminate))
    as (_ & Htile & _).
  destruct (Htile 1%nat (sample_encode 142 142))
    as (_ & _ & _ & _ & Hright & _).
  apply Hright. reflexivity.
Defined.

(** C7 as stated fails: three images, output=300, padding=5 give a grid of
    side 2 and tiles of side 142; the tile of index 1 sits in the last
    column at left=152 and leaves 300 - (152+142) = 6 pixels to the right
    edge, not 5. *)
Lemma TileGrid_margins_counterexample :
  exists c l o,
    In (EvSharpComposite c l)
       (calls (@TileGrid sample_fs sample_sharp sample_images
                 (sample_options 300 5))) /\
    l !! 1%nat = Some o /\
    0 < TileGrid_tileSize sample_images (sample_options 300 5) /\
    Z.of_nat 1 mod TileGrid_gridSize sample_images
      = TileGrid_gridSize sample_images - 1 /\
    output (sample_options 300 5)
    - (left o + TileGrid_tileSize sample_images (sample_options 300 5)) = 6 /\
    output (sample_options 300 5)
    - (left o + TileGrid_tileSize sample_images (sample_options 300 5))
      <> default 0 (padding (sample_options 300 5)).
Proof.
  exists (TileGrid_create (sample_options 300 5)).
  exists (imap (TileGrid_place 2 142 5)
            [sample_encode 142 142; sample_encode 142 142; sample_encode 142 142]).
  exists (TileGrid_place 2 142 5 1 (sample_encode 142 142)).
  split; [vm_compute; do 3 right; left; reflexivity |].
  split; [reflexivity |]. split; [reflexivity |]. split; [reflexivity |].
  split; [reflexivity | discriminate].
Qed.

(** ** Inputs that are neither a path nor a [Buffer] *)

Lemma Promise_all_rejected {A} (ps : list (Promise A)) (p : Promise A) (e : Rejection) :
  In p ps -> outcome p = inl e -> exists e', outcome (Promise_all ps) = inl e'.
Proof.
  induction ps as [|q ps IH]; simpl; [tauto |].
  intros Hin Hp. destruct (Promise_all ps) as [t r] eqn:Hall.
  unfold outcome in *. simpl in *.
  destruct (snd q) as [e'|a] eqn:Hq; [eauto |].
  destruct Hin as [-> | Hin]; [congruence |].
  destruct (IH Hin Hp) as [e' ->]. eauto.
Qed.

(** C5.  When the [data] of an input is neither a string nor a [Buffer],
    the per-image step of [TileGrid] throws the error of line 32, "Invalid
    image data: must be a file path or Buffer", before calling anything,
    and [TileGrid] is rejected once its guards pass.  [resize] was meant to
    resolve its input the same way but misses the test of lines 29-33: its
    [else] branch (lines 86-88) takes the value for a buffer and passes it
    to [sharp], so its outcome is whatever [sharp] makes of the value, and
    never the error of line 32. *)
Theorem invalid_data_handling `{FsPromises} `{Sharp}
    (image : Input) (tileSize size : Z) :
  typeof_string (data image) = false ->
  Buffer_isBuffer (data image) = false ->
  TileGrid_read image
    = throw (Error "Invalid image data: must be a file path or Buffer") /\
  TileGrid_tile tileSize image
    = throw (Error "Invalid image data: must be a file path or Buffer") /\
  (forall images options,
     In image images -> 0 < TileGrid_tileSize images options ->
     exists e, outcome (TileGrid images options) = inl e) /\
  resize image size = sharp_resize (data image) size size cover_center /\
  (forall m, outcome (resize image size) <> inl (Error m)).
Proof.
  intros Hs Hb.
  assert (Hread : TileGrid_read image = throw (Error msg_invalid_data)).
  { unfold TileGrid_read. destruct (data image); try discriminate; reflexivity. }
  assert (Htile : forall t, TileGrid_tile t image = throw (Error msg_invalid_data)).
  { intros t. unfold TileGrid_tile. rewrite Hread. reflexivity. }
  assert (Hres : resize image size = sharp_resize (data image) size size cover_center).
  { unfold resize. destruct (data image); try discriminate; simpl;
      unfold sharp_resize; destruct (sharp_resize_png _ _ _ _); reflexivity. }
  split; [exact Hread |]. split; [apply Htile |]. split; [| split; [exact Hres |]].
  - intros images options Hin Ht.
    pose proof (TileGrid_tileSize_pos_nonempty _ _ Ht) as Hne.
    rewrite (TileGrid_guards _ _ Hne).
    destruct (Z.leb_spec (TileGrid_tileSize images options) 0); [lia |].
    destruct (Promise_all_rejected
                (map (TileGrid_tile (TileGrid_tileSize images options)) images)
                (TileGrid_tile (TileGrid_tileSize images options) image)
                (Error msg_invalid_data)) as [e He].
    + apply in_map. exact Hin.
    + rewrite Htile. reflexivity.
    + exists e. apply await_outcome_inl. exact He.
  - intros m. rewrite Hres. unfold sharp_resize, outcome. simpl.
    destruct (sharp_resize_png _ _ _ _); discriminate.
Qed.

Lemma invalid_data_handling_witness :
  @TileGrid_tile sample_fs sample_sharp 142 sample_typed_array
    = throw (Error "Invalid image data: must be a file path or Buffer") /\
  @resize sample_fs sample_sharp sample_typed_array 150
    = @sharp_resize sample_sharp (JsUint8Array (sample_encode 200 100))
        150 150 cover_center.
Proof.
  destruct (@invalid_data_handling sample_fs sample_sharp
              sample_typed_array 142 150 eq_refl eq_refl)
    as (_ & Htile & _ & Hres & _).
  split; [exact Htile | exact Hres].
Defined.

(** C5 at two inputs where [resize] departs from the per-image step of
    [TileGrid]: a [Uint8Array] (not a string, not a [Buffer]) makes the
    step throw the error of line 32, while [resize] hands it to [sharp] and
    returns the resized image; a number makes [resize] fail with the
    rejection of [sharp], not with the error of line 32. *)
Lemma invalid_data_counterexample :
  typeof_string (data sample_typed_array) = false /\
  Buffer_isBuffer (data sample_typed_array) = false /\
  outcome (@TileGrid_tile sample_fs sample_sharp 150 sample_typed_array)
    = inl (Error "Invalid image data: must be a file path or Buffer") /\
  outcome (@resize sample_fs sample_sharp sample_typed_array 150)
    = inr (sample_encode 150 150) /\
  outcome (@resize sample_fs sample_sharp {| data := JsNumber 42; id := None |} 150)
    = inl (SharpError "Unsupported input") /\
  outcome (@resize sample_fs sample_sharp {| data := JsNumber 42; id := None |} 150)
    <> outcome (@TileGrid_tile sample_fs sample_sharp 150
                  {| data := JsNumber 42; id := None |}).
Proof.
  split; [reflexivity |]. split; [reflexivity |]. split; [reflexivity |].
  split; [vm_compute; reflexivity |]. split; [reflexivity |].
  vm_compute. discriminate.
Qed.

(** ** Square resize *)

Lemma sample_dims_encode_nat (n m : nat) :
  sample_dims (repeat Byte.x01 n ++ Byte.x00 :: repeat Byte.x01 m)
  = Some (Z.of_nat n, Z.of_nat m).
Proof.
  induction n as [|n IH].
  - simpl. rewrite repeat_length. reflexivity.
  - change (repeat Byte.x01 (S n) ++ Byte.x00 :: repeat Byte.x01 m)
      with (Byte.x01 :: (repeat Byte.x01 n ++ Byte.x00 :: repeat Byte.x01 m)).
    cbn [sample_dims]. rewrite IH. f_equal. f_equal. lia.
Qed.

Lemma sample_metadata_encode (w h : Z) :
  0 < w -> 0 < h -> sample_metadata (sample_encode w h) = Some (w, h).
Proof.
  intros Hw Hh. unfold sample_metadata, sample_decodable, sample_encode.
  rewrite sample_dims_encode_nat, !Z2Nat.id by lia.
  destruct (Z.ltb_spec 0 w); [| lia]. destruct (Z.ltb_spec 0 h); [| lia].
  reflexivity.
Qed.

Lemma sample_sharp_cover : @SharpCover sample_sharp.
Proof.
  constructor. intros b w h pos [wh Hmeta] Hw Hh.
  exists (sample_encode w h). split.
  - simpl in *. unfold sample_metadata in Hmeta.
    destruct (sample_decodable b); [| discriminate].
    destruct (Z.ltb_spec 0 w); [| lia]. destruct (Z.ltb_spec 0 h); [| lia].
    reflexivity.
  - apply sample_metadata_encode; assumption.
Qed.

(** C8. Given the cover-fit resize of the collaborator, [resize] applied to
    an input that resolves to a decodable image and to a positive size
    returns an encoded image of exactly size by size pixels, whatever the
    dimensions of the source image: the request it sends is
    (size, size, fit cover, position center). *)
Theorem resize_square `{FsPromises} `{Sharp} `{!SharpCover}
    (image : Input) (size : Z) (b : Buffer) :
  0 < size ->
  resolves image b ->
  is_Some (sharp_metadata b) ->
  exists out,
    outcome (resize image size) = inr out /\
    sharp_metadata out = Some (size, size) /\
    In (EvSharpResize (JsBuffer b) size size {| fit := cover; position := center |})
       (calls (resize image size)).
Proof.
  intros Hsize Hres Hdec.
  destruct (sharp_resize_cover b size size center Hdec Hsize Hsize)
    as (out & Hout & Hmeta).
  exists out. split; [| split; [exact Hmeta |]].
  - unfold resize. destruct Hres as [Hbuf | (path & Hpath & Hread)].
    + rewrite Hbuf. unfold await, resolve, sharp_resize, outcome, cover_center.
      simpl. rewrite Hout. reflexivity.
    + rewrite Hpath. unfold await, resolve, fs_readFile, sharp_resize, outcome,
        cover_center. simpl. rewrite Hread. simpl. rewrite Hout. reflexivity.
  - unfold resize. destruct Hres as [Hbuf | (path & Hpath & Hread)].
    + rewrite Hbuf. unfold await, resolve, sharp_resize, calls, cover_center.
      simpl. left. reflexivity.
    + rewrite Hpath. unfold await, resolve, fs_readFile, sharp_resize, calls,
        cover_center. simpl. rewrite Hread. simpl. right. left. reflexivity.
Qed.

Lemma resize_square_witness :
  exists out,
    outcome (@resize sample_fs sample_sharp
               {| data := JsString "wide.png"; id := None |} 150) = inr out /\
    sample_metadata out = Some (150, 150).
Proof.
  destruct (@resize_square sample_fs sample_sharp sample_sharp_cover
              {| data := JsString "wide.png"; id := None |} 150
              (sample_encode 200 100))
    as (out & Hout & Hmeta & _).
  - lia.
  - right. exists "wide.png". split; reflexivity.
  - exists (200, 100). vm_compute. reflexivity.
  - exists out. split; [exact Hout | exact Hmeta].
Defined.

(** * Further properties of [resize] and [TileGrid] *)

(** ** [resize] and the per-image step *)

(** X1. On an input of the declared type (a path or a [Buffer]) [resize] at
    size [s] is the per-image step of [TileGrid] at tile size [s]: the same
    calls in the same order and the same outcome. *)
Theorem resize_is_tile `{FsPromises} `{Sharp} (image : Input) (size : Z) :
  typeof_string (data image) = true \/ Buffer_isBuffer (data image) = true ->
  resize image size = TileGrid_tile size image.
Proof.
  intros Hty. unfold resize, TileGrid_tile, TileGrid_read.
  destruct (data image) as [path|b|b|n| |]; simpl in Hty;
    try (destruct Hty; discriminate).
  - unfold fs_readFile, await, resolve. destruct (readFile path); reflexivity.
  - reflexivity.
Qed.

Lemma resize_is_tile_witness :
  @resize sample_fs sample_sharp {| data := JsString "tall.png"; id := None |} 64
  = @TileGrid_tile sample_fs sample_sharp 64
      {| data := JsString "tall.png"; id := None |}.
Proof.
  apply (@resize_is_tile sample_fs sample_sharp). left. reflexivity.
Defined.

(** A rejected per-image step rejects the whole composition. *)
Lemma TileGrid_rejected_by_tile `{FsPromises} `{Sharp}
    (images : list Input) (options : Options) (image : Input) (e : Rejection) :
  In image images ->
  outcome (TileGrid_tile (TileGrid_tileSize images options) image) = inl e ->
  exists e', outcome (TileGrid images options) = inl e'.
Proof.
  intros Hin He.
  assert (Hne : images <> []) by (intros ->; destruct Hin).
  rewrite (TileGrid_guards _ _ Hne).
  destruct (Z.leb_spec (TileGrid_tileSize images options) 0); [eexists; reflexivity |].
  destruct (Promise_all_rejected
              (map (TileGrid_tile (TileGrid_tileSize images options)) images)
              _ e (in_map _ _ _ Hin) He) as [e' He'].
  exists e'. apply await_outcome_inl. exact He'.
Qed.

(** X2. A path that cannot be read: [resize] and the per-image step of
    [TileGrid] are rejected with the failure of [fs.readFile] itself, after
    that one call and without calling [sharp]; a composition that contains
    such an input is rejected. *)
Theorem unreadable_path `{FsPromises} `{Sharp}
    (image : Input) (path : string) (c : Errno) (size : Z) :
  data image = JsString path ->
  readFile path = inl c ->
  resize image size = ([EvReadFile path], inl (FsError c)) /\
  TileGrid_tile size image = ([EvReadFile path], inl (FsError c)) /\
  (forall images options, In image images ->
     exists e, outcome (TileGrid images options) = inl e).
Proof.
  intros Hdata Hread.
  assert (Htile : forall t, TileGrid_tile t image = ([EvReadFile path], inl (FsError c))).
  { intros t. unfold TileGrid_tile, TileGrid_read, fs_readFile, await.
    rewrite Hdata, Hread. reflexivity. }
  split; [| split; [apply Htile |]].
  - unfold resize, fs_readFile, await. rewrite Hdata, Hread. reflexivity.
  - intros images options Hin.
    apply (TileGrid_rejected_by_tile images options image (FsError c) Hin).
    rewrite Htile. reflexivity.
Qed.

Lemma unreadable_path_witness :
  exists e,
    outcome (@TileGrid sample_fs sample_sharp
               [sample_image 60 40;
                {| data := JsString "non-existent-file.png"; id := None |}]
               (sample_options 200 0)) = inl e.
Proof.
  destruct (@unreadable_path sample_fs sample_sharp
              {| data := JsString "non-existent-file.png"; id := None |}
              "non-existent-file.png" ENOENT 100 eq_refl eq_refl)
    as (_ & _ & Hgrid).
  apply Hgrid. right. left. reflexivity.
Defined.

(** X3. No partial result: when the per-image step of some input is
    rejected, [TileGrid] is rejected and [composite] is never called. *)
Theorem TileGrid_no_partial_result `{FsPromises} `{Sharp}
    (images : list Input) (options : Options) (image : Input) (e : Rejection) :
  In image images ->
  outcome (TileGrid_tile (TileGrid_tileSize images options) image) = inl e ->
  (exists e', outcome (TileGrid images options) = inl e') /\
  (forall ev, In ev (calls (TileGrid images options)) -> ~ is_composite ev).
Proof.
  intros Hin He. split; [eapply TileGrid_rejected_by_tile; eassumption |].
  intros [path|src w h o|c l] Hev; simpl; try tauto.
  intros _.
  apply TileGrid_composite_call in Hev as (_ & _ & _ & processed & Htiles & _).
  apply list_elem_of_In, list_elem_of_lookup in Hin as [i Hi].
  destruct (Forall2_lookup_l _ _ _ _ _ Htiles Hi) as (b & _ & Hb).
  congruence.
Qed.

Lemma TileGrid_no_partial_result_witness :
  (exists e', outcome (@TileGrid sample_fs sample_sharp
                         [sample_image 60 40; sample_typed_array]
                         (sample_options 200 0)) = inl e') /\
  Forall (fun ev => ~ is_composite ev)
    (calls (@TileGrid sample_fs sample_sharp
              [sample_image 60 40; sample_typed_array] (sample_options 200 0))).
Proof.
  destruct (@TileGrid_no_partial_result sample_fs sample_sharp
              [sample_image 60 40; sample_typed_array] (sample_options 200 0)
              sample_typed_array (Error msg_invalid_data))
    as [Hrej Hnone].
  - right. left. reflexivity.
  - reflexivity.
  - split; [exact Hrej |]. apply List.Forall_forall. exact Hnone.
Defined.

(** X4. [resize] validates nothing itself: a rejection of [resize] is the
    failure of [fs.readFile] on the path it was given or a rejection of
    [sharp]; and whatever the size, also zero or negative, the resolved
    bytes are sent to [sharp] with that size. *)
Theorem resize_no_validation `{FsPromises} `{Sharp} (image : Input) (size : Z) :
  (forall e, outcome (resize image size) = inl e ->
     (exists path c, data image = JsString path /\ readFile path = inl c /\
                     e = FsError c) \/
     (exists m, e = SharpError m)) /\
  (forall b, resolves image b ->
     In (EvSharpResize (JsBuffer b) size size cover_center)
        (calls (resize image size))).
Proof.
  split.
  - intros e. unfold resize, fs_readFile, sharp_resize, await, resolve, outcome.
    destruct (data image) as [path|b|b|n| |]; simpl;
      try (destruct (sharp_resize_png _ _ _ _); simpl; intros [= <-]; eauto).
    destruct (readFile path) as [c|b] eqn:Hread; simpl.
    + intros [= <-]. left. eauto.
    + destruct (sharp_resize_png _ _ _ _); simpl; intros [= <-]; eauto.
  - intros b [Hbuf | (path & Hpath & Hread)]; unfold resize.
    + rewrite Hbuf. left. reflexivity.
    + rewrite Hpath. unfold fs_readFile, await, resolve, calls. rewrite Hread.
      simpl. right. left. reflexivity.
Qed.

Lemma resize_no_validation_witness :
  In (EvSharpResize (JsBuffer (sample_encode 60 40)) (-5) (-5) cover_center)
     (calls (@resize sample_fs sample_sharp (sample_image 60 40) (-5))).
Proof.
  apply (@resize_no_validation sample_fs sample_sharp (sample_image 60 40) (-5)).
  left. reflexivity.
Defined.

(** ** The calls of a composition *)

Lemma TileGrid_tile_resize_call `{FsPromises} `{Sharp}
    (tileSize : Z) (image : Input) (src : JsData) (w h : Z) (o : ResizeOptions) :
  In (EvSharpResize src w h o) (calls (TileGrid_tile tileSize image)) ->
  w = tileSize /\ h = tileSize /\ o = cover_center /\
  exists b, src = JsBuffer b /\ resolves image b.
Proof.
  unfold TileGrid_tile, TileGrid_read, resolves. rewrite calls_await.
  destruct (data image) as [path|b|b|n| |]; simpl;
    try (intros []; fail).
  - unfold fs_readFile, outcome, calls. simpl.
    destruct (readFile path) as [c|b] eqn:Hread; simpl.
    + intros [Hev | []]. discriminate.
    + intros [Hev | [Hev | []]]; [discriminate |].
      injection Hev as <- <- <- <-. repeat split; try reflexivity.
      exists b. split; [reflexivity |]. right. eauto.
  - intros [Hev | []]. injection Hev as <- <- <- <-.
    repeat split; try reflexivity. exists b. split; [reflexivity |]. left. reflexivity.
Qed.

(** The calls of a composition whose guards pass: those of every per-image
    step, followed by the compositing call when all steps succeeded. *)
Lemma TileGrid_calls `{FsPromises} `{Sharp}
    (images : list Input) (options : Options) :
  0 < TileGrid_tileSize images options ->
  exists rest,
    calls (TileGrid images options) =
      concat (map (fun image =>
                     calls (TileGrid_tile (TileGrid_tileSize images options) image))
                images) ++ rest /\
    (rest = [] \/
     exists l, rest = [EvSharpComposite (TileGrid_create options) l]).
Proof.
  intros Ht. pose proof (TileGrid_tileSize_pos_nonempty _ _ Ht) as Hne.
  rewrite (TileGrid_guards _ _ Hne).
  destruct (Z.leb_spec (TileGrid_tileSize images options) 0); [lia |].
  rewrite calls_await, calls_Promise_all, map_map.
  destruct (outcome (Promise_all _)) as [e|processed].
  - exists []. rewrite app_nil_r. auto.
  - eexists. split; [reflexivity |]. right.
    rewrite calls_await. unfold sharp_composite, outcome, calls. simpl.
    destruct (sharp_create_composite_png _ _); simpl; eexists; reflexivity.
Qed.

(** X5. Every resize request that [TileGrid] sends to [sharp] is for the
    bytes one of its inputs resolves to, with width and height both equal
    to the tile size, which is positive, fit cover and position center. *)
Theorem TileGrid_resize_requests `{FsPromises} `{Sharp}
    (images : list Input) (options : Options)
    (src : JsData) (w h : Z) (o : ResizeOptions) :
  In (EvSharpResize src w h o) (calls (TileGrid images options)) ->
  0 < TileGrid_tileSize images options /\
  w = TileGrid_tileSize images options /\
  h = TileGrid_tileSize images options /\
  o = {| fit := cover; position := center |} /\
  exists image b, In image images /\ src = JsBuffer b /\ resolves image b.
Proof.
  intros Hev.
  destruct (Z_le_gt_dec (TileGrid_tileSize images options) 0) as [Hle | Hpos].
  - destruct images as [|i0 images]; [destruct Hev |].
    rewrite TileGrid_guards in Hev by discriminate.
    destruct (Z.leb_spec (TileGrid_tileSize (i0 :: images) options) 0);
      [destruct Hev | lia].
  - split; [lia |].
    destruct (TileGrid_calls images options ltac:(lia)) as (rest & Hcalls & Hrest).
    rewrite Hcalls in Hev. apply in_app_or in Hev as [Hev | Hev].
    + apply in_concat in Hev as (t & Ht & Hev).
      apply in_map_iff in Ht as (image & <- & Hin).
      apply TileGrid_tile_resize_call in Hev as (-> & -> & -> & b & -> & Hres).
      repeat split; try reflexivity. eauto.
    + destruct Hrest as [-> | [l ->]]; [destruct Hev |].
      destruct Hev as [Hev | []]. discriminate.
Qed.

Lemma TileGrid_resize_requests_witness :
  0 < TileGrid_tileSize sample_images (sample_options 300 5) /\
  142 = TileGrid_tileSize sample_images (sample_options 300 5).
Proof.
  destruct (@TileGrid_resize_requests sample_fs sample_sharp sample_images
              (sample_options 300 5) (JsBuffer (sample_encode 30 30))
              142 142 cover_center) as (Hpos & Hw & _).
  - vm_compute. right. left. reflexivity.
  - split; [exact Hpos | exact Hw].
Defined.

(** X6. Nothing is cancelled: once the guards pass, every call of the
    per-image step of every input is issued, also when the step of another
    input is rejected. *)
Theorem TileGrid_starts_every_tile `{FsPromises} `{Sharp}
    (images : list Input) (options : Options) (image : Input) (ev : Event) :
  0 < TileGrid_tileSize images options ->
  In image images ->
  In ev (calls (TileGrid_tile (TileGrid_tileSize images options) image)) ->
  In ev (calls (TileGrid images options)).
Proof.
  intros Ht Hin Hev.
  destruct (TileGrid_calls images options Ht) as (rest & -> & _).
  apply in_or_app. left. apply in_concat.
  exists (calls (TileGrid_tile (TileGrid_tileSize images options) image)).
  split; [| exact Hev].
  apply in_map_iff. exists image. split; [reflexivity | exact Hin].
Qed.

Lemma TileGrid_starts_every_tile_witness :
  In (EvReadFile "wide.png")
     (calls (@TileGrid sample_fs sample_sharp
               [sample_typed_array; {| data := JsString "wide.png"; id := None |}]
               (sample_options 200 0))).
Proof.
  apply (@TileGrid_starts_every_tile sample_fs sample_sharp
           [sample_typed_array; {| data := JsString "wide.png"; id := None |}]
           (sample_options 200 0)
           {| data := JsString "wide.png"; id := None |}).
  - reflexivity.
  - right. left. reflexivity.
  - left. reflexivity.
Defined.

(** X7. A successful composition made exactly one compositing call, and
    made it last: the calls before it are those of the per-image steps of
    all inputs (in some order) and none of them is a compositing call.  The
    canvas of that call is output by output pixels with 4 channels and the
    requested background ("transparent" when none is given), its overlay
    array has one entry per image, and the buffer returned is the result of
    that call, unchanged. *)
Theorem TileGrid_success_shape `{FsPromises} `{Sharp}
    (images : list Input) (options : Options) (out : Output) :
  outcome (TileGrid images options) = inr out ->
  exists before l,
    calls (TileGrid images options) =
      before
      ++ [EvSharpComposite
            {| width := output options; height := output options; channels := 4;
               create_background := default "transparent" (background options) |}
            l] /\
    Permutation before
      (concat (map (fun image =>
                      calls (TileGrid_tile (TileGrid_tileSize images options) image))
                 images)) /\
    (forall ev, In ev before -> ~ is_composite ev) /\
    sharp_create_composite_png
      {| width := output options; height := output options; channels := 4;
         create_background := default "transparent" (background options) |} l
      = inr (buffer out) /\
    Z.of_nat (length l) = count out.
Proof.
  intros Hout.
  destruct images as [|i0 images]; [discriminate |].
  set (imgs := i0 :: images) in *.
  assert (Hne : imgs <> []) by discriminate.
  rewrite (TileGrid_guards _ _ Hne) in Hout |- *.
  destruct (Z.leb_spec (TileGrid_tileSize imgs options) 0); [discriminate |].
  rewrite calls_await.
  destruct (outcome (Promise_all
    (map (TileGrid_tile (TileGrid_tileSize imgs options)) imgs)))
    as [e|processed] eqn:Hall.
  - rewrite (await_outcome_inl _ _ _ Hall) in Hout. discriminate.
  - rewrite (await_outcome_inr _ _ _ Hall) in Hout.
    pose proof (Forall2_length _ _ _ (Promise_all_values _ _ Hall)) as Hlen.
    rewrite length_map in Hlen. clear Hall.
    rewrite calls_await.
    unfold sharp_composite, await, resolve, outcome in Hout |- *.
    simpl in Hout |- *.
    destruct (sharp_create_composite_png _ _) as [m|buf] eqn:Hcomp;
      simpl in Hout |- *; [discriminate |].
    injection Hout as <-. simpl.
    exists (calls (Promise_all
              (map (TileGrid_tile (TileGrid_tileSize imgs options)) imgs))).
    eexists. split; [reflexivity |].
    split; [rewrite calls_Promise_all, map_map; apply Permutation_refl |].
    split; [intros ev Hev; eapply TileGrid_tiles_calls, Hev |].
    split; [exact Hcomp |].
    rewrite length_imap. simpl in Hlen. lia.
Qed.

Lemma TileGrid_success_shape_witness :
  exists l,
    sharp_create_composite_png (Sharp := sample_sharp)
      {| width := 300; height := 300; channels := 4;
         create_background := "transparent" |} l
      = inr (sample_encode 300 300) /\
    Z.of_nat (length l) = 3.
Proof.
  destruct (@TileGrid_success_shape sample_fs sample_sharp sample_images
              (sample_options 300 5)
              {| buffer := sample_encode 300 300; gridSize := 2; count := 3 |})
    as (before & l & _ & _ & _ & Hcomp & Hlen).
  - vm_compute. reflexivity.
  - exists l. split; [exact Hcomp | exact Hlen].
Defined.

(** ** More on the geometry *)

(** X8. For a non-empty [images] and options in the range where line 17
    is computed exactly ([exact_geometry]), the tile size is positive
    exactly when output >= gridSize + padding*(gridSize+1), one pixel per
    tile on top of the paddings; below that bound, and only then,
    [TileGrid] is rejected with the error of line 20. *)
Theorem TileGrid_feasible `{FsPromises} `{Sharp}
    (images : list Input) (options : Options) :
  images <> [] ->
  exact_geometry images options ->
  let g := TileGrid_gridSize images in
  let p := default 0 (padding options) in
  (0 < TileGrid_tileSize images options <-> g + p * (g + 1) <= output options) /\
  (outcome (TileGrid images options) = inl (Error msg_too_small)
   <-> output options < g + p * (g + 1)).
Proof.
  intros Hne _ g p.
  destruct (TileGrid_geometry_facts images options Hne)
    as (Hg & _ & _ & Hdiv & Hmod).
  fold g p in Hg, Hdiv, Hmod.
  assert (Hpos : 0 < TileGrid_tileSize images options
                 <-> g + p * (g + 1) <= output options).
  { generalize dependent (TileGrid_tileSize images options). intros t Hdiv.
    clearbody g p. split; intros Hle; nia. }
  split; [exact Hpos |]. split.
  - intros Hout.
    destruct (Z_lt_le_dec (output options) (g + p * (g + 1))) as [|Hge];
      [assumption |].
    apply Hpos in Hge. apply TileGrid_late_rejection in Hout; [discriminate | | ];
      assumption.
  - intros Hlt. rewrite (TileGrid_guards _ _ Hne).
    destruct (Z.leb_spec (TileGrid_tileSize images options) 0) as [|Ht];
      [reflexivity |].
    apply Hpos in Ht. lia.
Qed.

Lemma TileGrid_feasible_witness :
  0 < TileGrid_tileSize sample_images (sample_options 17 5) /\
  outcome (@TileGrid sample_fs sample_sharp sample_images (sample_options 16 5))
  = inl (Error msg_too_small).
Proof.
  destruct (@TileGrid_feasible sample_fs sample_sharp sample_images
              (sample_options 17 5) ltac:(discriminate)
              ltac:(unfold exact_geometry, exact_integer; vm_compute;
                    intuition discriminate)) as [Hpos _].
  destruct (@TileGrid_feasible sample_fs sample_sharp sample_images
              (sample_options 16 5) ltac:(discriminate)
              ltac:(unfold exact_geometry, exact_integer; vm_compute;
                    intuition discriminate)) as [_ Hrej].
  split; [apply Hpos | apply Hrej]; vm_compute; congruence.
Defined.

(** X9. Neighbouring cells are one padding apart.  The tile after a tile
    that is not in the last column sits in the same row, padding pixels
    right of it; the tile after a tile of the last column starts the next
    row at left = padding; and the tile gridSize places later sits in the
    same column, padding pixels below. *)
Theorem TileGrid_gaps (images : list Input) (options : Options)
    (i : nat) (b b' : Buffer) :
  images <> [] ->
  let g := TileGrid_gridSize images in
  let p := default 0 (padding options) in
  let t := TileGrid_tileSize images options in
  let here := TileGrid_place g t p i b in
  let next := TileGrid_place g t p (S i) b' in
  let below := TileGrid_place g t p (i + Z.to_nat g) b' in
  (Z.of_nat i mod g < g - 1 ->
     left next - (left here + t) = p /\ top next = top here) /\
  (Z.of_nat i mod g = g - 1 ->
     left next = p /\ top next - (top here + t) = p) /\
  (left below = left here /\ top below - (top here + t) = p).
Proof.
  intros Hne g p t here next below.
  assert (Hg : 1 <= g) by apply Math_ceil_sqrt_pos, length_nonempty, Hne.
  subst here next below. rewrite !place_left by exact Hg. rewrite !place_top.
  destruct (place_row g Hg i) as (_ & _ & Hdm).
  destruct (place_col g Hg i) as (_ & Hc).
  clearbody g p t.
  set (q := Z.of_nat i / g) in *. set (r := Z.of_nat i mod g) in *.
  split; [| split].
  - intros Hr.
    assert (Hq' : Z.of_nat (S i) / g = q).
    { symmetry. apply (Z.div_unique _ _ q (r + 1)); lia. }
    assert (Hr' : Z.of_nat (S i) mod g = r + 1).
    { symmetry. apply (Z.mod_unique _ _ q (r + 1)); lia. }
    rewrite Hq', Hr'. split; ring.
  - intros Hr.
    assert (Hq' : Z.of_nat (S i) / g = q + 1).
    { symmetry. apply (Z.div_unique _ _ (q + 1) 0); lia. }
    assert (Hr' : Z.of_nat (S i) mod g = 0).
    { symmetry. apply (Z.mod_unique _ _ (q + 1) 0); lia. }
    rewrite Hq', Hr'. split; ring.
  - assert (Hi : Z.of_nat (i + Z.to_nat g) = g * (q + 1) + r).
    { rewrite Nat2Z.inj_add, Z2Nat.id by lia. lia. }
    assert (Hq' : Z.of_nat (i + Z.to_nat g) / g = q + 1).
    { symmetry. apply (Z.div_unique _ _ (q + 1) r); lia. }
    assert (Hr' : Z.of_nat (i + Z.to_nat g) mod g = r).
    { symmetry. apply (Z.mod_unique _ _ (q + 1) r); lia. }
    rewrite Hq', Hr'. split; ring.
Qed.

Lemma TileGrid_gaps_witness :
  left (TileGrid_place 2 142 5 1 (sample_encode 142 142))
  - (left (TileGrid_place 2 142 5 0 (sample_encode 142 142)) + 142) = 5 /\
  top (TileGrid_place 2 142 5 2 (sample_encode 142 142))
  - (top (TileGrid_place 2 142 5 0 (sample_encode 142 142)) + 142) = 5.
Proof.
  destruct (TileGrid_gaps sample_images (sample_options 300 5) 0
              (sample_encode 142 142) (sample_encode 142 142)
              ltac:(discriminate)) as (Hnext & _ & Hbelow).
  split; [apply Hnext; reflexivity | apply Hbelow].
Defined.

(** X10. The grid is the smallest square that holds the images: at most
    2*gridSize - 2 of its gridSize*gridSize cells stay empty, and the last
    image lies in grid row gridSize-1 or gridSize-2, so at most one row is
    left without a tile. *)
Theorem TileGrid_occupancy (images : list Input) :
  images <> [] ->
  let g := TileGrid_gridSize images in
  let n := Z.of_nat (length images) in
  n <= g * g /\ g * g - n <= 2 * g - 2 /\
  g - 2 <= (n - 1) / g <= g - 1.
Proof.
  intros Hne g n. pose proof (length_nonempty _ Hne) as Hn. fold n in Hn.
  pose proof (Math_ceil_sqrt_pos _ Hn) as Hg.
  destruct (Math_ceil_sqrt_least n ltac:(lia)) as (_ & Hsq & _).
  pose proof (Math_ceil_sqrt_tight _ Hn) as Htight.
  change (Math_ceil_sqrt n) with g in Hg, Hsq, Htight. clearbody g n.
  split; [exact Hsq |]. split; [lia |]. split.
  - apply Z.div_le_lower_bound; lia.
  - assert ((n - 1) / g < g) by (apply Z.div_lt_upper_bound; lia). lia.
Qed.

Lemma TileGrid_occupancy_witness :
  TileGrid_gridSize sample_images * TileGrid_gridSize sample_images
  - Z.of_nat (length sample_images)
  <= 2 * TileGrid_gridSize sample_images - 2.
Proof.
  apply (TileGrid_occupancy sample_images). discriminate.
Defined.

Lemma Math_ceil_sqrt_mono (n m : Z) :
  0 <= n -> n <= m -> Math_ceil_sqrt n <= Math_ceil_sqrt m.
Proof.
  intros Hn Hnm.
  destruct (Math_ceil_sqrt_least n Hn) as (_ & _ & Hleast).
  destruct (Math_ceil_sqrt_least m ltac:(lia)) as (Hm0 & Hmsq & _).
  apply Hleast; lia.
Qed.

Lemma TileGrid_tileSize_split (images : list Input) (options : Options) :
  images <> [] ->
  TileGrid_tileSize images options =
    (output options - default 0 (padding options)) / TileGrid_gridSize images
    - default 0 (padding options).
Proof.
  intros Hne.
  assert (Hg : 1 <= TileGrid_gridSize images)
    by apply Math_ceil_sqrt_pos, length_nonempty, Hne.
  unfold TileGrid_tileSize, Math_floor_div.
  replace (output options
           - default 0 (padding options) * (TileGrid_gridSize images + 1))
    with (output options - default 0 (padding options)
          + (- default 0 (padding options)) * TileGrid_gridSize images) by ring.
  rewrite Z.div_add by lia. ring.
Qed.

(** X11. Fewer images never make things worse: with a non-negative
    padding, if a composition of some images is feasible (positive tile
    size), then with the same options every non-empty composition of at
    most as many images has a grid at most as large and tiles at least as
    large, hence is feasible too. *)
Theorem TileGrid_fewer_images (images images' : list Input) (options : Options) :
  images <> [] ->
  (length images <= length images')%nat ->
  0 <= default 0 (padding options) ->
  0 < TileGrid_tileSize images' options ->
  TileGrid_gridSize images <= TileGrid_gridSize images' /\
  TileGrid_tileSize images' options <= TileGrid_tileSize images options.
Proof.
  intros Hne Hlen Hp Ht'.
  assert (Hne' : images' <> []) by (intros ->; destruct images; simpl in *; [congruence | lia]).
  assert (Hg : 1 <= TileGrid_gridSize images)
    by apply Math_ceil_sqrt_pos, length_nonempty, Hne.
  assert (Hmono : TileGrid_gridSize images <= TileGrid_gridSize images')
    by (apply Math_ceil_sqrt_mono; lia).
  split; [exact Hmono |].
  rewrite (TileGrid_tileSize_split _ _ Hne) in *.
  rewrite (TileGrid_tileSize_split _ _ Hne') in *.
  set (a := output options - default 0 (padding options)) in *.
  assert (Ha : 0 <= a).
  { destruct (Z_lt_le_dec a 0) as [Hneg|]; [| assumption].
    assert (a / TileGrid_gridSize images' < 0)
      by (apply Z.div_lt_upper_bound; lia).
    lia. }
  pose proof (Z.div_le_compat_l a (TileGrid_gridSize images)
                (TileGrid_gridSize images') Ha ltac:(lia)).
  lia.
Qed.

Lemma TileGrid_fewer_images_witness :
  TileGrid_tileSize sample_images (sample_options 300 5)
  <= TileGrid_tileSize [sample_image 60 40] (sample_options 300 5).
Proof.
  apply (TileGrid_fewer_images [sample_image 60 40] sample_images
           (sample_options 300 5)).
  - discriminate.
  - simpl. lia.
  - discriminate.
  - reflexivity.
Defined.

Lemma cell_of_offset (d s t c : Z) :
  0 < t -> t <= s -> c * s <= d < c * s + t -> d / s = c.
Proof.
  intros Ht Hs Hd. symmetry. apply (Z.div_unique d s c (d - c * s)); lia.
Qed.

(** X12. From a pixel back to the image: in a valid composition (positive
    tile size, non-negative padding) a canvas pixel (x, y) covered by the
    tile of index i determines i, as
    i = floor((y - padding) / (tileSize + padding)) * gridSize
        + floor((x - padding) / (tileSize + padding)). *)
Theorem TileGrid_tile_at_pixel (images : list Input) (options : Options)
    (i : nat) (b : Buffer) (x y : Z) :
  0 < TileGrid_tileSize images options ->
  0 <= default 0 (padding options) ->
  let g := TileGrid_gridSize images in
  let p := default 0 (padding options) in
  let t := TileGrid_tileSize images options in
  covers t (TileGrid_place g t p i b) x y = true ->
  Z.of_nat i = (y - p) / (t + p) * g + (x - p) / (t + p).
Proof.
  intros Ht Hp g p t Hcov.
  pose proof (TileGrid_tileSize_pos_nonempty _ _ Ht) as Hne.
  assert (Hg : 1 <= g) by apply Math_ceil_sqrt_pos, length_nonempty, Hne.
  unfold covers in Hcov. rewrite place_left in Hcov by exact Hg.
  rewrite place_top in Hcov.
  apply andb_prop in Hcov as [Hcov H4]. apply andb_prop in Hcov as [Hcov H3].
  apply andb_prop in Hcov as [H1 H2].
  apply Z.leb_le in H1, H3. apply Z.ltb_lt in H2, H4.
  destruct (place_row g Hg i) as (_ & _ & Hdm).
  fold p t in Hp, Ht. clearbody g p t.
  rewrite (cell_of_offset (x - p) (t + p) t (Z.of_nat i mod g)) by lia.
  rewrite (cell_of_offset (y - p) (t + p) t (Z.of_nat i / g)) by lia.
  lia.
Qed.

Lemma TileGrid_tile_at_pixel_witness :
  Z.of_nat 2 = (200 - 5) / (142 + 5) * 2 + (100 - 5) / (142 + 5).
Proof.
  apply (TileGrid_tile_at_pixel sample_images (sample_options 300 5) 2
           (sample_encode 142 142) 100 200).
  - reflexivity.
  - discriminate.
  - reflexivity.
Defined.

(** ** The label of an input *)

Lemma TileGrid_tile_data `{FsPromises} `{Sharp} (t : Z) (a b : Input) :
  data a = data b -> TileGrid_tile t a = TileGrid_tile t b.
Proof. intros Hd. unfold TileGrid_tile, TileGrid_read. rewrite Hd. reflexivity. Qed.

(** X13. The [id] of an input is never looked at: two arrays of inputs with
    the same [data], entry by entry, give the same calls and the same
    outcome of [TileGrid], and two inputs with the same [data] the same
    calls and outcome of [resize]. *)
Theorem id_is_ignored `{FsPromises} `{Sharp}
    (images images' : list Input) (options : Options)
    (image image' : Input) (size : Z) :
  (map data images = map data images' ->
   TileGrid images options = TileGrid images' options) /\
  (data image = data image' -> resize image size = resize image' size).
Proof.
  split.
  - intros Hdata.
    assert (Hlen : length images = length images').
    { rewrite <- (length_map data images), Hdata. apply length_map. }
    assert (Hmap : forall t, map (TileGrid_tile t) images
                             = map (TileGrid_tile t) images').
    { intros t. revert images' Hdata Hlen.
      induction images as [|a l IH]; intros [|a' l'] Hdata Hlen;
        try discriminate; [reflexivity |].
      simpl in *. injection Hdata as Ha Hl. injection Hlen as Hlen.
      rewrite (TileGrid_tile_data t a a' Ha), (IH l' Hl Hlen). reflexivity. }
    unfold TileGrid. rewrite Hlen, Hmap. reflexivity.
  - intros Hd. unfold resize. rewrite Hd. reflexivity.
Qed.

Lemma id_is_ignored_witness :
  @TileGrid sample_fs sample_sharp
    [{| data := JsString "wide.png"; id := Some "first" |}] (sample_options 200 0)
  = @TileGrid sample_fs sample_sharp
      [{| data := JsString "wide.png"; id := None |}] (sample_options 200 0).
Proof.
  apply (@id_is_ignored sample_fs sample_sharp
           [{| data := JsString "wide.png"; id := Some "first" |}]
           [{| data := JsString "wide.png"; id := None |}]
           (sample_options 200 0) (sample_image 1 1) (sample_image 1 1) 1).
  reflexivity.
Defined.

(** ** Files read *)

Lemma paths_read_app (e1 e2 : list Event) :
  paths_read (e1 ++ e2) = paths_read e1 ++ paths_read e2.
Proof. apply flat_map_app. Qed.

Lemma TileGrid_tile_paths_read `{FsPromises} `{Sharp} (t : Z) (image : Input) :
  paths_read (calls (TileGrid_tile t image)) =
    match data image with JsString path => [path] | _ => [] end.
Proof.
  unfold TileGrid_tile, TileGrid_read. rewrite calls_await.
  destruct (data image) as [path|b|b|n| |]; try reflexivity.
  unfold fs_readFile, outcome, calls. simpl.
  destruct (readFile path); reflexivity.
Qed.

(** X14. The files read are the path inputs, each once and in array order:
    that holds for a composition whose guards pass, whether it succeeds or
    is rejected later, and for [resize]. *)
Theorem reads_are_path_inputs `{FsPromises} `{Sharp}
    (images : list Input) (options : Options) (image : Input) (size : Z) :
  (0 < TileGrid_tileSize images options ->
   paths_read (calls (TileGrid images options)) = path_inputs images) /\
  paths_read (calls (resize image size)) = path_inputs [image].
Proof.
  split.
  - intros Ht. destruct (TileGrid_calls images options Ht) as (rest & -> & Hrest).
    rewrite paths_read_app.
    assert (Hrest' : paths_read rest = []) by (destruct Hrest as [-> | [l ->]]; reflexivity).
    rewrite Hrest', app_nil_r.
    generalize (TileGrid_tileSize images options). intros t. clear.
    induction images as [|a l IH]; [reflexivity |].
    simpl. rewrite paths_read_app, IH, TileGrid_tile_paths_read. reflexivity.
  - unfold resize, path_inputs. rewrite calls_await.
    cbn [flat_map]. destruct (data image) as [path|b|b|n| |]; try reflexivity.
    unfold fs_readFile, await, resolve, outcome, calls. simpl.
    destruct (readFile path); reflexivity.
Qed.

Lemma reads_are_path_inputs_witness :
  paths_read
    (calls (@TileGrid sample_fs sample_sharp
              [{| data := JsString "wide.png"; id := None |};
               sample_image 60 40;
               {| data := JsString "non-existent-file.png"; id := None |};
               {| data := JsString "wide.png"; id := None |}]
              (sample_options 200 0)))
  = ["wide.png"; "non-existent-file.png"; "wide.png"].
Proof.
  apply (@reads_are_path_inputs sample_fs sample_sharp
           [{| data := JsString "wide.png"; id := None |};
            sample_image 60 40;
            {| data := JsString "non-existent-file.png"; id := None |};
            {| data := JsString "wide.png"; id := None |}]
           (sample_options 200 0) (sample_image 1 1) 1).
  reflexivity.
Defined.
